(** * spatialdata: the transformation engine and the polygon string codec

    A shallow embedding of
      - [spatialdata/_core/operations/transform.py]
        ([_transform_raster], [_adjust_transformations],
        [_validate_target_coordinate_systems] and the arms of the [transform]
        dispatcher for single-scale and multiscale rasters, points and
        shapes), and
      - [spatialdata/_core/elements.py]
        ([BaseElement.__init__], [Image._infer_axes],
        [Polygons.tensor_to_string] / [Polygons.string_to_tensor] and the
        axes of [Polygons.to_zarr]).

    Numbers: numpy's float64 values are idealised as exact rationals ([Q]);
    every concrete input used below is a dyadic rational, on which float64
    arithmetic is exact.  Where rounding decides what the program returns
    (the extent of a translated raster) the binary64 computation is written
    out beside the rational one.  Python exceptions are values of [exn];
    warnings are collected in a log. *)

From Stdlib Require Import Ascii QArith Qround Qminmax Qabs Lqa SpecFloat.
From stdpp Require Import gmap strings list fin_maps.

Open Scope Q_scope.
Open Scope string_scope.
Open Scope list_scope.
Open Scope stdpp_scope.

(** ** Exceptions and warnings: a small writer/error monad *)

Inductive exn : Type :=
| AssertionError
| KeyError
| TypeError
| RuntimeError
| ValueError
| IndexError
| AxisMismatchError
| NonInvertibleTransformError
| StopIteration
| SyntaxError
| AttributeError.

Inductive Warning : Type :=
| UserWarning_ERROR_MSG_AFTER_0_0_15
| LoggerWarning_not_isotropic.

Inductive outcome (A : Type) : Type :=
| Ok (a : A)
| Raise (e : exn).
Arguments Ok {A} a.
Arguments Raise {A} e.

(** A computation returns the warnings it emitted and either a value or the
    exception that ended it. *)
Definition M (A : Type) : Type := (list Warning * outcome A)%type.

Definition ret {A} (a : A) : M A := ([], Ok a).
Definition raise {A} (e : exn) : M A := ([], Raise e).
Definition warn (w : Warning) : M unit := ([w], Ok tt).
Definition bind {A B} (f : A → M B) (m : M A) : M B :=
  match m with
  | (ws, Ok a) => let '(ws', r) := f a in (ws ++ ws', r)
  | (ws, Raise e) => (ws, Raise e)
  end.
Definition assert (b : bool) : M unit :=
  if b then ret tt else raise AssertionError.

#[export] Instance M_ret : MRet M := @ret.
#[export] Instance M_bind : MBind M := @bind.

Definition succeeds {A} (m : M A) : Prop := ∃ ws a, m = (ws, Ok a).
Definition fails_with {A} (m : M A) (e : exn) : Prop := ∃ ws, m = (ws, Raise e).

(** ** Affine transformations *)

Definition matrix : Type := list (list Q).

(** Modelled from the spec: the transformation classes of
    [spatialdata.transformations.transformations] are imported by the source
    but are not part of it.  The variants are those of the data model:
    [Identity], [Translation(vector, axes)], [Scale(factors, axes)],
    [AffineMap(matrix, input_axes, output_axes)] and
    [Sequence(ordered list)]. *)
#[warnings="-register-all"]
Inductive BaseTransformation : Type :=
| Identity
| Translation (translation : list Q) (axes : list string)
| Scale (scale : list Q) (axes : list string)
| AffineMap (m : matrix) (input_axes output_axes : list string)
| Sequence (transformations : list BaseTransformation).

Definition list_eqb {A} (eqb : A → A → bool) : list A → list A → bool :=
  fix go l1 l2 :=
    match l1, l2 with
    | [], [] => true
    | x :: l1', y :: l2' => eqb x y && go l1' l2'
    | _, _ => false
    end.

Definition vector_eqb : list Q → list Q → bool := list_eqb Qeq_bool.
Definition matrix_eqb : matrix → matrix → bool := list_eqb vector_eqb.
Definition axes_eqb : list string → list string → bool := list_eqb String.eqb.

(** Modelled from the spec: [==] on transformations, "exact structural
    equality (not approximate)"; numbers are compared by value. *)
Fixpoint transformation_eqb (a b : BaseTransformation) : bool :=
  match a, b with
  | Identity, Identity => true
  | Translation v ax, Translation w bx => vector_eqb v w && axes_eqb ax bx
  | Scale v ax, Scale w bx => vector_eqb v w && axes_eqb ax bx
  | AffineMap m i o, AffineMap n j p =>
      matrix_eqb m n && axes_eqb i j && axes_eqb o p
  | Sequence l1, Sequence l2 =>
      (fix go (l1 l2 : list BaseTransformation) : bool :=
         match l1, l2 with
         | [], [] => true
         | x :: l1', y :: l2' => transformation_eqb x y && go l1' l2'
         | _, _ => false
         end) l1 l2
  | _, _ => false
  end.

(** *** Matrices over the rationals, row-major as numpy has them *)

Definition dot (u v : list Q) : Q :=
  fold_right Qplus 0 (zip_with Qmult u v).

(** [m @ v] for a vector [v] *)
Definition mat_vec (m : matrix) (v : list Q) : list Q :=
  map (fun row => dot row v) m.

(** column [j] of [m] *)
Definition column (j : nat) (m : matrix) : list Q :=
  map (fun row => nth j row 0) m.

Definition n_cols (m : matrix) : nat :=
  match m with [] => O | row :: _ => length row end.

Definition transpose (m : matrix) : matrix :=
  map (fun j => column j m) (seq 0 (n_cols m)).

(** [a @ b] *)
Definition mat_mul (a b : matrix) : matrix :=
  map (fun row => map (fun j => dot row (column j b)) (seq 0 (n_cols b))) a.

Definition unit_row (n i : nat) : list Q :=
  map (fun j => if Nat.eqb i j then 1 else 0) (seq 0 n).

Definition identity_matrix (n : nat) : matrix :=
  map (unit_row n) (seq 0 n).

Definition vector_eq (u v : list Q) : Prop := Forall2 Qeq u v.
Definition matrix_eq (a b : matrix) : Prop := Forall2 vector_eq a b.

(** [b] is a two-sided inverse of [a] (both square of size [n]) *)
Definition is_inverse_of (n : nat) (b a : matrix) : Prop :=
  matrix_eq (mat_mul b a) (identity_matrix n) ∧
  matrix_eq (mat_mul a b) (identity_matrix n).

Definition is_Identity (t : BaseTransformation) : bool :=
  match t with Identity => true | _ => false end.

(** *** Matrix inversion (Gauss-Jordan elimination on [A | I]) *)

Definition row_scale (c : Q) (r : list Q) : list Q :=
  map (fun x => Qred (c * x)) r.

Definition row_sub (c : Q) (p r : list Q) : list Q :=
  zip_with (fun x y => Qred (x - c * y)) r p.

(** the first row whose [k]-th entry is not zero, and the other rows *)
Fixpoint find_pivot (k : nat) (rows : matrix) : option (list Q * matrix) :=
  match rows with
  | [] => None
  | r :: rs =>
      if Qeq_bool (nth k r 0) 0
      then match find_pivot k rs with
           | Some (p, rest) => Some (p, r :: rest)
           | None => None
           end
      else Some (r, rs)
  end.

Fixpoint gauss_jordan (fuel k : nat) (reduced todo : matrix) : option matrix :=
  match fuel with
  | O => Some reduced
  | S fuel' =>
      match find_pivot k todo with
      | None => None
      | Some (p, rest) =>
          let p' := row_scale (/ nth k p 0) p in
          let elim r := row_sub (nth k r 0) p' r in
          gauss_jordan fuel' (S k) (map elim reduced ++ [p']) (map elim rest)
      end
  end.

(** [numpy.linalg.inv]: [None] on a matrix that is not square or is singular *)
Definition mat_inverse (m : matrix) : option matrix :=
  let n := length m in
  if forallb (fun r => Nat.eqb (length r) n) m
  then match gauss_jordan n 0 [] (zip_with app m (identity_matrix n)) with
       | Some rows => Some (map (drop n) rows)
       | None => None
       end
  else None.

(** *** Materialisation and inversion of transformations *)

Fixpoint index_of (a : string) (l : list string) : option nat :=
  match l with
  | [] => None
  | b :: l' => if String.eqb a b then Some O else S <$> index_of a l'
  end.

Definition has_axis (a : string) (l : list string) : bool :=
  existsb (String.eqb a) l.

(** the entry of [v] that belongs to axis [a] of [taxes], else [d] *)
Definition axis_entry (v : list Q) (taxes : list string) (a : string) (d : Q) : Q :=
  match index_of a taxes with
  | Some k => nth k v 0
  | None => d
  end.

Definition delta (a b : string) : Q := if String.eqb a b then 1 else 0.

(** the homogeneous matrix over [axes] with linear block [lin] and offset
    column [off]; the last row is [0 ... 0 1] *)
Definition affine_rows (axes : list string)
    (lin : string → string → Q) (off : string → Q) : matrix :=
  map (fun ao => map (fun ai => lin ao ai) axes ++ [off ao]) axes
  ++ [map (fun _ => 0) axes ++ [1]].

Definition check_axes (taxes axes : list string) : M unit :=
  if forallb (fun a => has_axis a axes) taxes then ret tt
  else raise AxisMismatchError.

(** Modelled from the spec: [t.to_affine_matrix(input_axes=axes,
    output_axes=axes)], the only form in which the source materialises a
    transformation.  The axes the transformation does not name pass through
    unchanged; an axis of the transformation that [axes] lacks is an
    [AxisMismatchError]; a [Sequence] multiplies the matrices of its members
    in application order (the first member is applied first). *)
Fixpoint to_affine_matrix (t : BaseTransformation) (axes : list string) : M matrix :=
  match t with
  | Identity => ret (affine_rows axes delta (fun _ => 0))
  | Translation v taxes =>
      check_axes taxes axes;;
      ret (affine_rows axes delta (fun a => axis_entry v taxes a 0))
  | Scale v taxes =>
      check_axes taxes axes;;
      ret (affine_rows axes
             (fun ao ai => if String.eqb ao ai then axis_entry v taxes ao 1 else 0)
             (fun _ => 0))
  | AffineMap m input_axes output_axes =>
      check_axes input_axes axes;;
      check_axes output_axes axes;;
      ret (affine_rows axes
             (fun ao ai =>
                match index_of ao output_axes with
                | Some r =>
                    match index_of ai input_axes with
                    | Some c => nth c (nth r m []) 0
                    | None => 0
                    end
                | None => delta ao ai
                end)
             (fun ao =>
                match index_of ao output_axes with
                | Some r => nth (length input_axes) (nth r m []) 0
                | None => 0
                end))
  | Sequence ts =>
      (fix compose (ts : list BaseTransformation) (composed : matrix) : M matrix :=
         match ts with
         | [] => ret composed
         | t :: ts' =>
             m ← to_affine_matrix t axes;
             compose ts' (mat_mul m composed)
         end) ts (identity_matrix (S (length axes)))
  end.

(** Modelled from the spec: [t.inverse()], "defined for all variants except
    transforms with singular matrices (fails with
    [NonInvertibleTransformError])"; the inverse of a [Sequence] is the
    [Sequence] of the inverses in reverse order. *)
Fixpoint inverse (t : BaseTransformation) : M BaseTransformation :=
  match t with
  | Identity => ret Identity
  | Translation v taxes => ret (Translation (map Qopp v) taxes)
  | Scale v taxes =>
      if existsb (fun x => Qeq_bool x 0) v
      then raise NonInvertibleTransformError
      else ret (Scale (map Qinv v) taxes)
  | AffineMap m input_axes output_axes =>
      match mat_inverse m with
      | Some m' => ret (AffineMap m' output_axes input_axes)
      | None => raise NonInvertibleTransformError
      end
  | Sequence ts =>
      ts' ← (fix inverses (ts : list BaseTransformation) : M (list BaseTransformation) :=
               match ts with
               | [] => ret []
               | t :: ts' =>
                   rest ← inverses ts';
                   t' ← inverse t;
                   ret (rest ++ [t'])
               end) ts;
      ret (Sequence ts')
  end.

(** ** The transformation registry of an element *)

(** The classes the dispatcher and the adjuster switch on. *)
Inductive ElementType : Type :=
| SpatialImage
| MultiscaleSpatialImage
| GeoDataFrame
| DaskDataFrame
| OtherElement.

(** [element.attrs["transform"]]: coordinate-system name to transformation. *)
Abbreviation Registry := (gmap string BaseTransformation).

Section registry.
(** [spatialdata.models._utils.DEFAULT_COORDINATE_SYSTEM], the reserved
    default coordinate-system name; imported by the source, defined
    elsewhere. *)
Variable DEFAULT_COORDINATE_SYSTEM : string.

(** [get_transformation(element, get_all=True)] *)
Definition get_all_transformations (reg : Registry) : Registry := reg.

(** [get_transformation(element, to_coordinate_system=cs)]; a missing
    target name stands for the default coordinate system. *)
Definition resolve_cs (to_coordinate_system : option string) : string :=
  default DEFAULT_COORDINATE_SYSTEM to_coordinate_system.

Definition get_transformation (reg : Registry)
    (to_coordinate_system : option string) : M BaseTransformation :=
  match reg !! resolve_cs to_coordinate_system with
  | Some t => ret t
  | None => raise ValueError
  end.

(** [remove_transformation(element, remove_all=True)] *)
Definition remove_all_transformations (reg : Registry) : Registry := ∅.

(** [set_transformation(element, t, to_coordinate_system=cs)] *)
Definition set_transformation (reg : Registry) (t : BaseTransformation)
    (to_coordinate_system : option string) : Registry :=
  <[resolve_cs to_coordinate_system := t]> reg.

(** *** [_adjust_transformations] *)

(** The element is mutated in place by the source; here the function takes
    the element's kind and its registry [element.attrs["transform"]] and
    returns the registry the element ends up with. *)
Definition _adjust_transformations
    (element : ElementType) (element_transform : Registry)
    (old_transformations : Registry)
    (transformation : BaseTransformation)
    (raster_translation : option BaseTransformation)
    (maintain_positioning : bool)
    (to_coordinate_system : option string) : M Registry :=
  (if maintain_positioning
   then assert (bool_decide (to_coordinate_system = None))
   else ret tt);;
  to_prepend ←
    match element with
    | SpatialImage | MultiscaleSpatialImage =>
        if maintain_positioning then
          match raster_translation with
          | None => raise AssertionError
          | Some rt =>
              tinv ← inverse transformation;
              ret (Some (Sequence [rt; tinv]))
          end
        else ret raster_translation
    | GeoDataFrame | DaskDataFrame =>
        assert (bool_decide (raster_translation = None));;
        if maintain_positioning
        then tinv ← inverse transformation; ret (Some tinv)
        else ret (Some Identity)
    | OtherElement => raise TypeError
    end;
  to_prepend ←
    match to_prepend with
    | Some t => ret t
    | None => raise AssertionError
    end;
  let d := get_all_transformations element_transform in
  assert (Nat.eqb (size d) 1);;
  match d !! DEFAULT_COORDINATE_SYSTEM with
  | None => raise KeyError
  | Some t0 => assert (is_Identity t0)
  end;;
  let cleared := remove_all_transformations element_transform in
  if maintain_positioning then
    ret (map_fold
           (fun cs t reg =>
              set_transformation reg (Sequence [to_prepend; t]) (Some cs))
           cleared old_transformations)
  else
    ret (set_transformation cleared to_prepend to_coordinate_system).

(** *** [_validate_target_coordinate_systems] *)

Definition _validate_target_coordinate_systems
    (data_transform : Registry)
    (transformation : option BaseTransformation)
    (maintain_positioning : bool)
    (to_coordinate_system : option string)
  : M (BaseTransformation * option string) :=
  if negb maintain_positioning then
    let d := get_all_transformations data_transform in
    match transformation, to_coordinate_system with
    | None, Some cs =>
        match d !! cs with
        | None => raise AssertionError
        | Some t => ret (t, Some cs)
        end
    | Some t, None =>
        if Nat.eqb (size d) 1 then
          match map_to_list d with
          | [] => raise IndexError
          | (k, dk) :: _ =>
              if transformation_eqb t dk
              then warn UserWarning_ERROR_MSG_AFTER_0_0_15;; ret (t, Some k)
              else raise RuntimeError
          end
        else raise RuntimeError
    | _, _ => raise RuntimeError
    end
  else
    assert (xorb (bool_decide (transformation = None))
                 (bool_decide (to_coordinate_system = None)));;
    match transformation with
    | Some t => ret (t, to_coordinate_system)
    | None =>
        t ← get_transformation data_transform to_coordinate_system;
        ret (t, None)
    end.

End registry.

(** ** Rasters *)

(** Keyword arguments forwarded to the resampling routine. *)
Record Kwargs : Type := {
  kw_prefilter : option bool;
  kw_order : option Z
}.

(** A dask array is a lazy computation: a source array of a given shape, or
    the request to resample an array with
    [dask_image.ndinterp.affine_transform(data, matrix=..., output_shape=...,
    **kwargs)], which is a collaborator outside the source.  Only the request
    and the shape of its result are observable here. *)
Inductive DaskArray : Type :=
| source_array (name : string) (shape : list Z)
| affine_transform (data : DaskArray) (matrix : matrix)
    (output_shape : list Z) (kwargs : Kwargs).

Definition shape (a : DaskArray) : list Z :=
  match a with
  | source_array _ s => s
  | affine_transform _ _ output_shape _ => output_shape
  end.

(** Modelled from the spec: [transformation._get_n_spatial_dims(axes)], "the
    number of spatial axes" [d]; the axis tuples of a raster are [(c,z,y,x)],
    [(c,y,x)], [(z,y,x)] and [(y,x)], any other tuple is rejected. *)
Definition _get_n_spatial_dims (axes : list string) : M nat :=
  if axes_eqb axes ["c"; "z"; "y"; "x"] then ret 3%nat
  else if axes_eqb axes ["c"; "y"; "x"] then ret 2%nat
  else if axes_eqb axes ["z"; "y"; "x"] then ret 3%nat
  else if axes_eqb axes ["y"; "x"] then ret 2%nat
  else raise ValueError.

(** [itertools.product([0, 1], repeat=n)], in the order Python yields it *)
Fixpoint product01 (n : nat) : list (list Z) :=
  match n with
  | O => [[]]
  | S n' =>
      map (cons 0%Z) (product01 n') ++ map (cons 1%Z) (product01 n')
  end.

(** [numpy.max] / [numpy.min] of a non-empty list *)
Definition np_max (l : list Q) : Q :=
  match l with
  | [] => 0
  | x :: l' => fold_left Qmax l' x
  end.

Definition np_min (l : list Q) : Q :=
  match l with
  | [] => 0
  | x :: l' => fold_left Qmin l' x
  end.

(** Python's [int(x)] on a float: truncation towards zero *)
Definition int (x : Q) : Z := Z.quot (Qnum x) (Zpos (Qden x)).

(** the homogeneous corner points [v] of [_transform_raster]: the [2^n]
    corners of the spatial extent, a zero in front when there is a channel
    axis, a one at the end *)
Definition corner_points (n_spatial_dims : nat) (spatial_shape : list Z)
    (has_c : bool) : list (list Q) :=
  let binary := map (fun b => zip_with Z.mul b spatial_shape)
                    (product01 n_spatial_dims) in
  let c_channel := if has_c then [0] else [] in
  map (fun b => c_channel ++ map inject_Z b ++ [1]) binary.

(** [data.shape[len(data.shape) - n_spatial_dims:]]; an array has as many
    dimensions as it has axes, so the start index is not negative *)
Definition spatial_shape_of (data : DaskArray) (n_spatial_dims : nat) : list Z :=
  drop (length (shape data) - n_spatial_dims) (shape data).

(** [new_v = (matrix @ v.T).T] *)
Definition transformed_corners (m : matrix) (v : list (list Q)) : list (list Q) :=
  map (mat_vec m) v.

Definition _transform_raster (data : DaskArray) (axes : list string)
    (transformation : BaseTransformation) (kwargs : Kwargs)
  : M (DaskArray * BaseTransformation) :=
  n_spatial_dims ← _get_n_spatial_dims axes;
  let spatial_shape := spatial_shape_of data n_spatial_dims in
  let v := corner_points n_spatial_dims spatial_shape (has_axis "c" axes) in
  matrix ← to_affine_matrix transformation axes;
  let new_v := transformed_corners matrix v in
  let c_shape := if has_axis "c" axes then take 1 (shape data) else [] in
  let new_spatial_shape :=
    map (fun i => int (np_max (column i new_v) - np_min (column i new_v)))
        (seq (length c_shape) n_spatial_dims) in
  let output_shape := c_shape ++ new_spatial_shape in
  let translation_vector :=
    map (fun i => np_min (column i new_v)) (seq 0 (length axes)) in
  let translation := Translation translation_vector axes in
  let spatial_axes := drop (length axes - n_spatial_dims) axes in
  tinv ← inverse transformation;
  inverse_matrix_adjusted ←
    to_affine_matrix (Sequence [translation; tinv]) axes;
  let transformed_dask :=
    affine_transform data inverse_matrix_adjusted output_shape kwargs in
  let new_pixel_sizes :=
    zip_with Qdiv (map inject_Z new_spatial_shape) (map inject_Z spatial_shape) in
  let new_pixel_size_offset :=
    Translation (map (fun p => - p / 2 + (1 # 2)) new_pixel_sizes) spatial_axes in
  let raster_translation := Sequence [new_pixel_size_offset; translation] in
  ret (transformed_dask, raster_translation).

(** [x] is a largest (smallest) element of [l] *)

Definition is_maximum (x : Q) (l : list Q) : Prop :=
  x ∈ l ∧ Forall (fun y => y <= x) l.
Definition is_minimum (x : Q) (l : list Q) : Prop :=
  x ∈ l ∧ Forall (fun y => x <= y) l.


(** [b] is a corner of the box [0 .. spatial_shape]: every coordinate is
    either zero or the extent of its axis *)
Definition is_corner (spatial_shape b : list Z) : Prop :=
  Forall2 (fun x s => x = 0%Z ∨ x = s) b spatial_shape.

(** Names for the intermediate values of [_transform_raster]: the transformed
    corner points [new_v], the per-axis minimum [translation_vector] and the
    [Translation] built from it. *)
Definition raster_new_v (data : DaskArray) (axes : list string)
    (n_spatial_dims : nat) (m : matrix) : list (list Q) :=
  transformed_corners m
    (corner_points n_spatial_dims (spatial_shape_of data n_spatial_dims)
       (has_axis "c" axes)).

Definition raster_translation_vector (new_v : list (list Q))
    (axes : list string) : list Q :=
  map (fun i => np_min (column i new_v)) (seq 0 (length axes)).

(** *** The raster claims as the specification words them *)

(** "the output spatial shape is computed per spatial axis as the ceiling of
    (maximum minus minimum) of that axis's coordinates over all transformed
    corner points" *)
Definition output_shape_is_ceiling (data : DaskArray) (axes : list string)
    (t : BaseTransformation) (kw : Kwargs) : Prop :=
  ∀ n m out rt,
    _get_n_spatial_dims axes = ret n →
    to_affine_matrix t axes = ret m →
    _transform_raster data axes t kw = ret (out, rt) →
    let c := if has_axis "c" axes then 1%nat else 0%nat in
    let new_v := raster_new_v data axes n m in
    ∀ k, (k < n)%nat →
      shape out !! (c + k)%nat
      = Some (Qceiling (np_max (column (c + k) new_v)
                        - np_min (column (c + k) new_v))).

(** "the matrix passed to the external resampling collaborator equals the
    inverse of the matrix of Sequence([translation, t.inverse()])" *)
Definition resampling_matrix_is_inverse_of_sequence (data : DaskArray)
    (axes : list string) (t : BaseTransformation) (kw : Kwargs) : Prop :=
  ∀ n m tinv passed output_shape rt s,
    _get_n_spatial_dims axes = ret n →
    to_affine_matrix t axes = ret m →
    inverse t = ret tinv →
    _transform_raster data axes t kw
    = ret (affine_transform data passed output_shape kw, rt) →
    to_affine_matrix
      (Sequence
         [Translation
            (raster_translation_vector (raster_new_v data axes n m) axes) axes;
          tinv]) axes = ret s →
    is_inverse_of (S (length axes)) passed s.


(** Keyword arguments of the single-scale dispatcher:
    [{"prefilter": False, "order": 0}] *)
Definition kwargs_spatial_image : Kwargs :=
  {| kw_prefilter := Some false; kw_order := Some 0%Z |}.

(** ** The [transform] dispatcher *)

(** The schema [get_model] finds for an element. *)
Inductive Schema : Type :=
| Image2DModel
| Image3DModel
| Labels2DModel
| Labels3DModel
| PointsModel
| ShapesModel.

(** An [xarray.DataArray] as the dispatcher uses it ([SpatialImage] is a
    subclass): the lazy array [.data], the axis names [.dims], the [.name],
    the labels [.indexes["c"].values] of the channel axis when it is indexed,
    and [.attrs["transform"]]. *)
Record DataArray : Type := {
  xr_data : DaskArray;
  xr_dims : list string;
  xr_name : string;
  xr_c_coords : option (list string);
  xr_transform : Registry
}.

(** A [MultiscaleSpatialImage]: its schema, its items (level name to the
    data variables of the level, in iteration order) and the registry that
    [get_transformation] / [set_transformation] read and write for it. *)
Record MultiscaleImage : Type := {
  ms_schema : Schema;
  ms_items : list (string * list DataArray);
  ms_transform : Registry
}.

(** [d[k] = v] on a Python [dict], which keeps insertion order *)
Fixpoint dict_set {A} (k : string) (v : A) (d : list (string * A))
  : list (string * A) :=
  match d with
  | [] => [(k, v)]
  | (k', v') :: d' =>
      if String.eqb k k' then (k, v) :: d' else (k', v') :: dict_set k v d'
  end.

(** the keyword arguments the multiscale dispatcher chooses by schema *)
Definition multiscale_kwargs (schema : Schema) : M Kwargs :=
  match schema with
  | Labels2DModel | Labels3DModel =>
      ret {| kw_prefilter := Some false; kw_order := None |}
  | Image2DModel | Image3DModel =>
      ret {| kw_prefilter := None; kw_order := None |}
  | _ => raise ValueError
  end.

Section dispatcher.
Variable DEFAULT_COORDINATE_SYSTEM : string.

(** [spatialdata.transformations._utils._get_scale], which reads the scale
    of a pyramid level relative to the base level off the registry of the
    level; imported by the source, defined elsewhere. *)
Variable _get_scale : Registry → M BaseTransformation.

(** *** Single-scale rasters *)

(** Modelled from the spec: [schema.parse] builds the new element with "a
    single [Identity] entry in a default coordinate system", the
    placeholder the adjuster then rewrites; [compute_coordinates] and the
    schema validation do not touch the fields modelled here. *)
Definition transform_spatial_image (data : DataArray)
    (transformation : option BaseTransformation)
    (maintain_positioning : bool) (to_coordinate_system : option string)
  : M DataArray :=
  '(transformation, to_coordinate_system) ←
    _validate_target_coordinate_systems DEFAULT_COORDINATE_SYSTEM
      (xr_transform data) transformation maintain_positioning
      to_coordinate_system;
  let axes := xr_dims data in
  '(transformed_dask, raster_translation) ←
    _transform_raster (xr_data data) axes transformation kwargs_spatial_image;
  let c_coords := xr_c_coords data in
  let parsed_transform : Registry :=
    {[DEFAULT_COORDINATE_SYSTEM := Identity]} in
  let old_transformations := get_all_transformations (xr_transform data) in
  reg ← _adjust_transformations DEFAULT_COORDINATE_SYSTEM SpatialImage
           parsed_transform old_transformations transformation
           (Some raster_translation) maintain_positioning None;
  ret {| xr_data := transformed_dask; xr_dims := axes;
         xr_name := xr_name data; xr_c_coords := c_coords;
         xr_transform := reg |}.

(** *** Multiscale rasters *)

(** the transformation a level is resampled with *)
Definition level_transformation (k : string) (xdata : DataArray)
    (transformation : BaseTransformation) : M BaseTransformation :=
  if String.eqb k "scale0" then ret transformation
  else
    scale ← _get_scale (xr_transform xdata);
    scale_inverse ← inverse scale;
    ret (Sequence [scale; transformation; scale_inverse]).

(** the loop [for k, v in data.items()], threading [transformed_dict] and
    [raster_translation] *)
Fixpoint transform_levels (transformation : BaseTransformation)
    (kwargs : Kwargs) (items : list (string * list DataArray))
    (transformed_dict : list (string * DataArray))
    (raster_translation : option BaseTransformation)
  : M (list (string * DataArray) * option BaseTransformation) :=
  match items with
  | [] => ret (transformed_dict, raster_translation)
  | (k, v) :: items' =>
      assert (Nat.eqb (length v) 1);;
      xdata ← match v with
              | x :: _ => ret x
              | [] => raise StopIteration
              end;
      composed ← level_transformation k xdata transformation;
      '(transformed_dask, raster_translation_single_scale) ←
        _transform_raster (xr_data xdata) (xr_dims xdata) composed kwargs;
      let raster_translation :=
        match raster_translation with
        | None => Some raster_translation_single_scale
        | Some rt => Some rt
        end in
      let transformed_dict :=
        dict_set k {| xr_data := transformed_dask; xr_dims := xr_dims xdata;
                      xr_name := xr_name xdata; xr_c_coords := None;
                      xr_transform := ∅ |} transformed_dict in
      transform_levels transformation kwargs items' transformed_dict
        raster_translation
  end.

Definition transform_multiscale (data : MultiscaleImage)
    (transformation : option BaseTransformation)
    (maintain_positioning : bool) (to_coordinate_system : option string)
  : M MultiscaleImage :=
  '(transformation, to_coordinate_system) ←
    _validate_target_coordinate_systems DEFAULT_COORDINATE_SYSTEM
      (ms_transform data) transformation maintain_positioning
      to_coordinate_system;
  kwargs ← multiscale_kwargs (ms_schema data);
  '(transformed_dict, raster_translation) ←
    transform_levels transformation kwargs (ms_items data) [] None;
  let fresh : Registry :=
    set_transformation DEFAULT_COORDINATE_SYSTEM ∅ Identity
      (Some DEFAULT_COORDINATE_SYSTEM) in
  let old_transformations := get_all_transformations (ms_transform data) in
  reg ← _adjust_transformations DEFAULT_COORDINATE_SYSTEM
           MultiscaleSpatialImage fresh old_transformations transformation
           raster_translation maintain_positioning None;
  ret {| ms_schema := ms_schema data;
         ms_items := map (fun kx => (kx.1, [kx.2])) transformed_dict;
         ms_transform := reg |}.

(** *** Point tables *)

(** [d[k]] on a Python [dict] / a column of a data frame *)
Definition dict_get {A} (k : string) (d : list (string * A)) : option A :=
  snd <$> List.find (fun kv => String.eqb k kv.1) d.

(** A [dask.dataframe.DataFrame] of points: the number of rows, the named
    columns in column order, the axis names [get_axes_names] reports for
    it, and [attrs["transform"]]. *)
Record DataFrame : Type := {
  df_len : nat;
  df_columns : list (string * list Q);
  df_axes : list string;
  df_transform : Registry
}.

(** Modelled from the spec: [transformation._transform_coordinates(xdata)]
    "builds an N x (D+1) homogeneous coordinate block, left-multiplies by
    the transform's matrix (input_axes = output_axes = spatial axis names)"
    and gives back the D transformed coordinates of every point. *)
Definition _transform_coordinates (transformation : BaseTransformation)
    (dim : list string) (xdata : list (list Q)) : M (list (list Q)) :=
  matrix ← to_affine_matrix transformation dim;
  ret (map (fun point => take (length dim) (mat_vec matrix (point ++ [1])))
           xdata).

(** [xtransformed[:, xtransformed["dim"] == ax].data.flatten()] *)
Definition select_dim (dim : list string) (ax : string)
    (xtransformed : list (list Q)) : list Q :=
  concat (map (fun point =>
                 map snd (filter (fun aq => String.eqb aq.1 ax = true)
                            (zip dim point)))
              xtransformed).

Definition transform_points (data : DataFrame)
    (transformation : option BaseTransformation)
    (maintain_positioning : bool) (to_coordinate_system : option string)
  : M DataFrame :=
  '(transformation, to_coordinate_system) ←
    _validate_target_coordinate_systems DEFAULT_COORDINATE_SYSTEM
      (df_transform data) transformation maintain_positioning
      to_coordinate_system;
  let axes := df_axes data in
  arrays ← mapM (fun ax =>
                   match dict_get ax (df_columns data) with
                   | Some column => ret column
                   | None => raise KeyError
                   end) axes;
  (* [da.concatenate] of no arrays *)
  (if arrays is [] then raise ValueError else ret tt);;
  let xdata :=
    map (fun i => map (fun column => nth i column 0) arrays)
        (seq 0 (df_len data)) in
  xtransformed ← _transform_coordinates transformation axes xdata;
  let dropped :=
    filter (fun kv => ¬ kv.1 ∈ axes) (df_columns data) in
  let placeholder : Registry := {[DEFAULT_COORDINATE_SYSTEM := Identity]} in
  let columns :=
    fold_left (fun columns ax => dict_set ax (select_dim axes ax xtransformed) columns)
              axes dropped in
  let old_transformations := get_all_transformations (df_transform data) in
  reg ← _adjust_transformations DEFAULT_COORDINATE_SYSTEM DaskDataFrame
           placeholder old_transformations transformation None
           maintain_positioning None;
  ret {| df_len := df_len data; df_columns := columns;
         df_axes := df_axes data; df_transform := reg |}.

(** *** Shapes *)

(** [shapely] geometries by their vertices *)
Inductive Geometry : Type :=
| Point (coords : list Q)
| Polygon (rings : list (list (list Q)))
| MultiPolygon (polygons : list (list (list (list Q)))).

Definition is_Point (g : Geometry) : bool :=
  match g with Point _ => true | _ => false end.

(** A [geopandas.GeoDataFrame]: the geometry column, the other columns by
    name, the axis names [get_axes_names] reports for it, and
    [attrs["transform"]]. *)
Record GeoDataFrameData : Type := {
  gdf_geometry : list Geometry;
  gdf_columns : list (string * list Q);
  gdf_axes : list string;
  gdf_transform : Registry
}.

(** Modelled from the spec: [geometry.affine_transform(coefficients)]
    "applies the transform's linear part + translation to every ring vertex
    of every geometry (2D or 3D) via the standard affine-on-geometry
    convention (row-major [a,b,d,e,xoff,yoff]-style coefficients for 2D,
    extended for 3D)"; any other number of coefficients is rejected. *)
Definition affine_vertex (n : nat) (coefficients : list Q) (v : list Q) : list Q :=
  map (fun r => dot (take n (drop (r * n) coefficients)) v
                + nth (n * n + r) coefficients 0)
      (seq 0 n).

(** a map on vertices, applied to every vertex of a geometry *)
Definition geometry_map (f : list Q → list Q) (g : Geometry) : Geometry :=
  match g with
  | Point coords => Point (f coords)
  | Polygon rings => Polygon (map (map f) rings)
  | MultiPolygon polygons => MultiPolygon (map (map (map f)) polygons)
  end.

Definition geometry_affine_transform (coefficients : list Q) (g : Geometry)
  : M Geometry :=
  n ← (if Nat.eqb (length coefficients) 6 then ret 2%nat
       else if Nat.eqb (length coefficients) 12 then ret 3%nat
       else raise ValueError);
  ret (geometry_map (affine_vertex n coefficients) g).

(** [numpy.absolute(numpy.linalg.eigvals(m))], the moduli of the
    eigenvalues of a square matrix; a numerical routine outside the
    source. *)
Variable eigenvalue_moduli : matrix → list Q.

(** [numpy.allclose(l, b)] with the default tolerances
    [rtol = 1e-05] and [atol = 1e-08] *)
Definition np_allclose (l : list Q) (b : Q) : bool :=
  forallb (fun a => Qle_bool (Qabs (a - b))
                      ((1 # 100000000) + (1 # 100000) * Qabs b)) l.

(** [numpy.mean] *)
Definition np_mean (l : list Q) : Q :=
  fold_right Qplus 0 l / inject_Z (Z.of_nat (length l)).

(** [matrix[:-1, :-1]] and [matrix[:-1, -1]] *)
Definition linear_block (m : matrix) : matrix :=
  map (fun row => removelast row) (removelast m).
Definition offset_column (m : matrix) : list Q :=
  map (fun row => List.last row 0) (removelast m).

Definition transform_shapes (data : GeoDataFrameData)
    (transformation : option BaseTransformation)
    (maintain_positioning : bool) (to_coordinate_system : option string)
  : M GeoDataFrameData :=
  '(transformation, to_coordinate_system) ←
    _validate_target_coordinate_systems DEFAULT_COORDINATE_SYSTEM
      (gdf_transform data) transformation maintain_positioning
      to_coordinate_system;
  let ndim := length (gdf_axes data) in
  matrix ← to_affine_matrix transformation (take ndim ["x"; "y"; "z"]);
  let shapely_notation := concat (linear_block matrix) ++ offset_column matrix in
  transformed_geometry ←
    mapM (geometry_affine_transform shapely_notation) (gdf_geometry data);
  let placeholder : Registry := {[DEFAULT_COORDINATE_SYSTEM := Identity]} in
  first ← match transformed_geometry with
          | g :: _ => ret g
          | [] => raise IndexError
          end;
  columns ←
    match is_Point first, dict_get "radius" (gdf_columns data) with
    | true, Some old_radius =>
        let modules := eigenvalue_moduli (linear_block matrix) in
        modules_0 ← match modules with
                    | x :: _ => ret x
                    | [] => raise IndexError
                    end;
        scale_factor ←
          (if negb (np_allclose modules modules_0)
           then warn LoggerWarning_not_isotropic;; ret (np_mean modules)
           else ret modules_0);
        let new_radius := map (fun r => r * scale_factor) old_radius in
        ret (dict_set "radius" new_radius (gdf_columns data))
    | _, _ => ret (gdf_columns data)
    end;
  let old_transformations := get_all_transformations (gdf_transform data) in
  reg ← _adjust_transformations DEFAULT_COORDINATE_SYSTEM GeoDataFrame
           placeholder old_transformations transformation None
           maintain_positioning None;
  ret {| gdf_geometry := transformed_geometry; gdf_columns := columns;
         gdf_axes := gdf_axes data; gdf_transform := reg |}.

End dispatcher.

(** *** The multiscale claim: what it means for a level to be transformed *)

(** [out] is the level [item] resampled by the dispatcher: the level holds
    one data variable, the level named ["scale0"] is resampled with the
    transformation [t] itself, any other level with
    [Sequence [scale; t; scale.inverse()]], [scale] being what [_get_scale]
    reads off the registry of the level. *)
Definition level_transformed (_get_scale : Registry → M BaseTransformation)
    (t : BaseTransformation) (kw : Kwargs)
    (item : string * list DataArray) (out : string * DataArray) : Prop :=
  out.1 = item.1 ∧
  ∃ xdata composed dask rt,
    item.2 = [xdata] ∧
    (if String.eqb item.1 "scale0" then composed = t
     else ∃ scale scale_inverse,
         (_get_scale (xr_transform xdata)).2 = Ok scale ∧
         (inverse scale).2 = Ok scale_inverse ∧
         composed = Sequence [scale; t; scale_inverse]) ∧
    (_transform_raster (xr_data xdata) (xr_dims xdata) composed kw).2
    = Ok (dask, rt) ∧
    out.2 = {| xr_data := dask; xr_dims := xr_dims xdata;
               xr_name := xr_name xdata; xr_c_coords := None;
               xr_transform := ∅ |}.

(** *** The radius claim as the specification words it *)

(** the moduli of the eigenvalues of a triangular matrix are the absolute
    values of its diagonal; this is what [eigenvalue_moduli] is on the
    matrices of translations and scales *)
Definition diagonal_moduli (m : matrix) : list Q :=
  map (fun i => Qabs (nth i (nth i m []) 0)) (seq 0 (length m)).

(** "For every polygon-set entity in which any geometry is a point-type
    carrying a scalar radius attribute: if all eigenvalue magnitudes of the
    transform's linear block agree within tolerance, every radius is
    multiplied by that common eigenvalue magnitude; otherwise a warning is
    emitted (not an error) and every radius is multiplied by the mean of the
    eigenvalue magnitudes." *)
Definition radius_scaled_when_any_point
    (D : string) (eigenvalue_moduli : matrix → list Q)
    (data : GeoDataFrameData) (transformation : option BaseTransformation)
    (maintain_positioning : bool) (to_coordinate_system : option string) : Prop :=
  ∀ ws out t cs m old_radius,
    transform_shapes D eigenvalue_moduli data transformation
      maintain_positioning to_coordinate_system = (ws, Ok out) →
    (_validate_target_coordinate_systems D (gdf_transform data) transformation
       maintain_positioning to_coordinate_system).2 = Ok (t, cs) →
    (to_affine_matrix t (take (length (gdf_axes data)) ["x"; "y"; "z"])).2 = Ok m →
    Exists (fun g => is_Point g = true) (gdf_geometry data) →
    dict_get "radius" (gdf_columns data) = Some old_radius →
    let modules := eigenvalue_moduli (linear_block m) in
    if np_allclose modules (nth 0 modules 0)
    then dict_get "radius" (gdf_columns out)
         = Some (map (fun r => r * nth 0 modules 0) old_radius)
    else LoggerWarning_not_isotropic ∈ ws ∧
         dict_get "radius" (gdf_columns out)
         = Some (map (fun r => r * np_mean modules) old_radius).

(** ** The polygon string codec ([Polygons] in [elements.py]) *)

(** *** Regular expressions, matched by derivatives *)

Inductive regex : Type :=
| re_void                         (* matches nothing *)
| re_eps                          (* the empty string *)
| re_chr (c : ascii)              (* one given character *)
| re_rng (lo hi : ascii)          (* [lo-hi] *)
| re_cat (r1 r2 : regex)
| re_alt (r1 r2 : regex)
| re_star (r : regex).

Definition re_plus (r : regex) : regex := re_cat r (re_star r).
Definition re_opt (r : regex) : regex := re_alt r re_eps.

Fixpoint nullable (r : regex) : bool :=
  match r with
  | re_void => false
  | re_eps => true
  | re_chr _ => false
  | re_rng _ _ => false
  | re_cat r1 r2 => nullable r1 && nullable r2
  | re_alt r1 r2 => nullable r1 || nullable r2
  | re_star _ => true
  end.

Definition in_range (lo hi c : ascii) : bool :=
  (nat_of_ascii lo <=? nat_of_ascii c)%nat && (nat_of_ascii c <=? nat_of_ascii hi)%nat.

Fixpoint deriv (c : ascii) (r : regex) : regex :=
  match r with
  | re_void => re_void
  | re_eps => re_void
  | re_chr c' => if Ascii.eqb c c' then re_eps else re_void
  | re_rng lo hi => if in_range lo hi c then re_eps else re_void
  | re_cat r1 r2 =>
      if nullable r1
      then re_alt (re_cat (deriv c r1) r2) (deriv c r2)
      else re_cat (deriv c r1) r2
  | re_alt r1 r2 => re_alt (deriv c r1) (deriv c r2)
  | re_star r' => re_cat (deriv c r') (re_star r')
  end.

(** [re.fullmatch(r, s) is not None]; under [fullmatch] the anchors [^] and
    [$] of a pattern add nothing *)
Fixpoint re_fullmatch (r : regex) (s : string) : bool :=
  match s with
  | EmptyString => nullable r
  | String c s' => re_fullmatch (deriv c r) s'
  end.

(** [[0-9]+\.[0-9]+] *)
Definition re_decimal : regex :=
  re_cat (re_plus (re_rng "0" "9"))
    (re_cat (re_chr ".") (re_plus (re_rng "0" "9"))).

(** [\[[0-9]+\.[0-9]+,[0-9]+\.[0-9]+\],?], the group that is repeated *)
Definition re_group : regex :=
  re_cat (re_chr "[")
    (re_cat re_decimal
       (re_cat (re_chr ",")
          (re_cat re_decimal (re_cat (re_chr "]") (re_opt (re_chr ",")))))).

(** [^\[(?:\[[0-9]+\.[0-9]+,[0-9]+\.[0-9]+\],?)+\]$], the pattern of
    [string_to_tensor] *)
Definition pattern : regex :=
  re_cat (re_chr "[") (re_cat (re_plus re_group) (re_chr "]")).

(** *** Number and list literals *)

Definition is_digit (c : ascii) : bool := in_range "0" "9" c.

(** the rest of [s] after its first character, when that is [c] *)
Definition eat (c : ascii) (s : string) : option string :=
  match s with
  | String a s' => if Ascii.eqb a c then Some s' else None
  | EmptyString => None
  end.

(** the value of a string of digits read after the digits worth [acc] *)
Fixpoint digits_value (acc : Z) (s : string) : Z :=
  match s with
  | EmptyString => acc
  | String c s' =>
      digits_value (10 * acc + Z.of_nat (nat_of_ascii c - 48)) s'
  end.

(** the longest prefix of digits of [s], and what follows it *)
Fixpoint span_digits (s : string) : string * string :=
  match s with
  | String c s' =>
      if is_digit c
      then let '(d, rest) := span_digits s' in (String c d, rest)
      else (EmptyString, s)
  | EmptyString => (EmptyString, EmptyString)
  end.

(** the exponent of a number literal at the head of [s], if there is one:
    [e] or [E], an optional sign, digits *)
Definition parse_exponent (s : string) : option (Z * string) :=
  match (match eat "e" s with Some s' => Some s' | None => eat "E" s end) with
  | Some s' =>
      let '(exponent_negative, s'') :=
        match eat "-" s' with
        | Some t => (true, t)
        | None =>
            match eat "+" s' with
            | Some t => (false, t)
            | None => (false, s')
            end
        end in
      let '(digits, rest) := span_digits s'' in
      if Nat.eqb (String.length digits) 0 then None
      else Some (if exponent_negative then (- digits_value 0 digits)%Z
                 else digits_value 0 digits, rest)
  | None => Some (0%Z, s)
  end.

(** A number literal at the head of [s]: an optional minus sign, digits, an
    optional point followed by any digits, an optional exponent.  Its value
    is read as the exact rational it denotes. *)
Definition parse_number (s : string) : option (Q * string) :=
  let '(negative, s) :=
    match eat "-" s with
    | Some s' => (true, s')
    | None => (false, s)
    end in
  let '(int_part, s) := span_digits s in
  if Nat.eqb (String.length int_part) 0 then None
  else
    let '(frac_part, s) :=
      match eat "." s with
      | Some s' => span_digits s'
      | None => (EmptyString, s)
      end in
    let mantissa :=
      inject_Z (digits_value 0 (String.append int_part frac_part))
      / inject_Z (10 ^ Z.of_nat (String.length frac_part)) in
    match parse_exponent s with
    | None => None
    | Some (e, s) =>
        let value := mantissa * Qpower 10 e in
        Some (Qred (if negative then - value else value), s)
    end.

(** the items of a list display after its opening bracket, up to and
    including the closing bracket *)
Fixpoint parse_items {A} (item : string → option (A * string))
    (fuel : nat) (s : string) : option (list A * string) :=
  match fuel with
  | O => None
  | S fuel' =>
      match eat "]" s with
      | Some rest => Some ([], rest)
      | None =>
          match item s with
          | None => None
          | Some (x, s') =>
              match eat "]" s' with
              | Some rest => Some ([x], rest)
              | None =>
                  match eat "," s' with
                  | Some s'' =>
                      match parse_items item fuel' s'' with
                      | Some (xs, rest) => Some (x :: xs, rest)
                      | None => None
                      end
                  | None => None
                  end
              end
          end
      end
  end.

(** [[number, ...]] *)
Definition parse_row (s : string) : option (list Q * string) :=
  match eat "[" s with
  | Some s' => parse_items parse_number (S (String.length s')) s'
  | None => None
  end.

(** the bracketed lists of numbers that directly follow a row *)
Fixpoint skip_subscripts (fuel : nat) (s : string) : string :=
  match fuel with
  | O => s
  | S fuel' =>
      match parse_row s with
      | Some (_, rest) => skip_subscripts fuel' rest
      | None => s
      end
  end.

(** a row, or the subscription of a row: a row that is directly followed
    by bracketed lists of numbers is a list subscripted by a tuple or a
    float, which raises [TypeError] when it is evaluated (a subscript that
    is a single integer, which Python would evaluate, is not told apart) *)
Definition parse_row_item (s : string) : option ((list Q + exn) * string) :=
  match parse_row s with
  | Some (row, rest) =>
      match parse_row rest with
      | Some _ => Some (inr TypeError, skip_subscripts (String.length rest) rest)
      | None => Some (inl row, rest)
      end
  | None => None
  end.

(** the rows of a parsed list, or the first error met in evaluating them *)
Fixpoint collect_rows (items : list (list Q + exn)) : M (list (list Q)) :=
  match items with
  | [] => ret []
  | inl row :: items' => rest ← collect_rows items'; ret (row :: rest)
  | inr e :: _ => raise e
  end.

(** Python's [eval] on the text of a list of lists of numbers; text that is
    not of this form is answered with [SyntaxError], which is as far as the
    model of [eval] goes. *)
Definition py_eval (s : string) : M (list (list Q)) :=
  match eat "[" s with
  | Some s' =>
      match parse_items parse_row_item (S (String.length s')) s' with
      | Some (items, EmptyString) => collect_rows items
      | _ => raise SyntaxError
      end
  | None => raise SyntaxError
  end.

(** *** [tensor_to_string] and [string_to_tensor] *)

(** [s.replace(c, "")] for a single character [c] *)
Fixpoint remove_char (c : ascii) (s : string) : string :=
  match s with
  | EmptyString => EmptyString
  | String a s' =>
      if Ascii.eqb a c then remove_char c s' else String a (remove_char c s')
  end.

(** [s[:-1]] *)
Fixpoint drop_last (s : string) : string :=
  match s with
  | EmptyString => EmptyString
  | String _ EmptyString => EmptyString
  | String a s' => String a (drop_last s')
  end.

(** [s[n:]] *)
Fixpoint drop_first (n : nat) (s : string) : string :=
  match n, s with
  | S n', String _ s' => drop_first n' s'
  | _, _ => s
  end.

(** [numpy.allclose(x, y)] on two arrays of the same shape, with the default
    tolerances; arrays of different shapes are not close *)
Definition allclose_arrays (x y : list (list Q)) : bool :=
  list_eqb
    (list_eqb (fun a b => Qle_bool (Qabs (a - b))
                            ((1 # 100000000) + (1 # 100000) * Qabs b)))
    x y.

Section codec.
(** [repr] of a numpy array, which the source relies on *)
Variable numpy_repr : list (list Q) → string.

Definition tensor_to_string (x : list (list Q)) : M string :=
  let s :=
    drop_last
      (drop_first (String.length "array(")
         (remove_char " " (remove_char "010" (numpy_repr x)))) in
  (* consistently check *)
  y ← py_eval s;
  assert (allclose_arrays x y);;
  ret s.
End codec.

(** [None] is the value of a function that ends without [return] *)
Definition string_to_tensor (s : string) : M (option (list (list Q))) :=
  if re_fullmatch pattern s
  then x ← py_eval s; ret (Some x)
  else ret None.

(** [Polygons.to_zarr], up to the call of [write_polygons]: the axes it
    hands over.  [.shape[1]] of [None] is an [AttributeError], of an array
    without a second dimension an [IndexError]. *)
Definition polygons_to_zarr_axes (spatial : list string) : M (list string) :=
  first ← match spatial with
          | s :: _ => ret s
          | [] => raise IndexError
          end;
  tensor ← string_to_tensor first;
  ndim ← match tensor with
         | None => raise AttributeError
         | Some [] => raise IndexError
         | Some (row :: _) => ret (length row)
         end;
  assert (Nat.eqb ndim 2 || Nat.eqb ndim 3);;
  ret (take ndim ["x"; "y"; "z"]).

(** ** Elements ([elements.py]) *)

(** [l[start:]] on a Python list, for a start index of either sign *)
Definition py_slice_from {A} (start : Z) (l : list A) : list A :=
  let len := Z.of_nat (length l) in
  let start := if (start <? 0)%Z then Z.max 0 (start + len) else Z.min start len in
  drop (Z.to_nat start) l.

(** [Image._infer_axes] *)
Definition _infer_axes (shape : list Z) : list string :=
  py_slice_from (3 - Z.of_nat (length shape)) ["c"; "y"; "x"].

(** [CoordinateSystem]: a name and its axes *)
Record CoordinateSystem : Type := {
  cs_name : string;
  cs_axes : list string
}.

(** [len({k for k in keys})], the number of distinct keys *)
Definition count_distinct (keys : list string) : nat :=
  length (remove_dups keys).

(** [BaseElement.__init__]: the two dictionaries the element is left with,
    [coordinate_systems] and [transformations], both keyed by the names of
    the coordinate systems; [alignment_info] is given by its items. *)
Definition BaseElement_init
    (alignment_info : list (CoordinateSystem * BaseTransformation))
  : M (list (string * CoordinateSystem) * list (string * BaseTransformation)) :=
  assert (Nat.eqb (count_distinct (map (fun kv => cs_name kv.1) alignment_info))
                  (length alignment_info));;
  let coordinate_systems :=
    fold_left (fun d kv => dict_set (cs_name kv.1) kv.1 d) alignment_info [] in
  let transformations :=
    fold_left (fun d kv => dict_set (cs_name kv.1) kv.2 d) alignment_info [] in
  ret (coordinate_systems, transformations).


(** *** The language of a regular expression *)

(** the strings a regular expression matches in full, as lists of characters *)
Fixpoint re_lang (r : regex) (l : list ascii) : Prop :=
  match r with
  | re_void => False
  | re_eps => l = []
  | re_chr c => l = [c]
  | re_rng lo hi => ∃ c, l = [c] ∧ in_range lo hi c = true
  | re_cat r1 r2 => ∃ l1 l2, l = l1 ++ l2 ∧ re_lang r1 l1 ∧ re_lang r2 l2
  | re_alt r1 r2 => re_lang r1 l ∨ re_lang r2 l
  | re_star r' => ∃ ls, l = concat ls ∧ Forall (re_lang r') ls
  end.

(** the characters a regular expression can consume *)
Fixpoint re_alphabet (r : regex) (c : ascii) : bool :=
  match r with
  | re_void | re_eps => false
  | re_chr c' => Ascii.eqb c c'
  | re_rng lo hi => in_range lo hi c
  | re_cat r1 r2 | re_alt r1 r2 => re_alphabet r1 c || re_alphabet r2 c
  | re_star r' => re_alphabet r' c
  end.

(** *** The texts [string_to_tensor] accepts *)

(** One group [[d1.d2,d3.d4]] of the pattern, by its four runs of digits
    and whether a comma follows it. *)
Record group : Type := {
  g_d1 : list ascii;
  g_d2 : list ascii;
  g_d3 : list ascii;
  g_d4 : list ascii;
  g_comma : bool
}.

Definition digits (d : list ascii) : Prop :=
  d ≠ [] ∧ Forall (fun c => is_digit c = true) d.

Definition group_ok (g : group) : Prop :=
  digits (g_d1 g) ∧ digits (g_d2 g) ∧ digits (g_d3 g) ∧ digits (g_d4 g).

Definition group_text (g : group) : list ascii :=
  ["["%char] ++ g_d1 g ++ ["."%char] ++ g_d2 g ++ [","%char]
  ++ g_d3 g ++ ["."%char] ++ g_d4 g ++ ["]"%char]
  ++ (if g_comma g then [","%char] else []).

Definition tensor_text (gs : list group) : string :=
  String.string_of_list_ascii
    (["["%char] ++ concat (map group_text gs) ++ ["]"%char]).

(** the number the decimal literal [d1.d2] denotes *)
Definition decimal_value (d1 d2 : list ascii) : Q :=
  Qred (inject_Z (digits_value 0 (String.string_of_list_ascii (d1 ++ d2)))
        / inject_Z (10 ^ Z.of_nat (length d2))).

Definition group_row (g : group) : list Q :=
  [decimal_value (g_d1 g) (g_d2 g); decimal_value (g_d3 g) (g_d4 g)].

(** every group but the last is followed by a comma *)
Fixpoint separated (gs : list group) : bool :=
  match gs with
  | [] | [_] => true
  | g :: gs' => g_comma g && separated gs'
  end.

(** the groups left after a run of groups read as subscripts: the run ends
    behind the first group that is followed by a comma ([Some] of the
    groups after it), or with the text ([None]) *)
Fixpoint after_subscripts (gs : list group) : option (list group) :=
  match gs with
  | [] => None
  | g :: gs' => if g_comma g then Some gs' else after_subscripts gs'
  end.

(** ** The extent of a translated axis in binary64

    The extents of the output (lines 49–54) are [int(max - min)] over the
    transformed corners, computed by numpy in float64.  Along an axis of [s]
    pixels that a translation moves by [t] the corners lie at [0 + t] and
    [s + t]; below is that one computation in IEEE binary64 (53 bits of
    precision, round to nearest even). *)

Definition binary64_add : spec_float → spec_float → spec_float :=
  SpecFloat.SFadd 53 1024.

Definition binary64_sub : spec_float → spec_float → spec_float :=
  SpecFloat.SFsub 53 1024.

Definition binary64_of_Z (z : Z) : spec_float :=
  SpecFloat.binary_normalize 53 1024 z 0 false.

(** The float64 nearest to [0.02]: [0x147AE147AE147B * 2^-58]. *)
Definition binary64_two_hundredths : spec_float :=
  S754_finite false 5764607523034235 (-58).

(** [int(x)] of a finite float: truncation towards zero. *)
Definition binary64_int (x : spec_float) : Z :=
  match x with
  | S754_finite s m e =>
      let z := if s then Z.neg m else Z.pos m in
      if (0 <=? e)%Z then (z * 2 ^ e)%Z else Z.quot z (2 ^ (- e))
  | _ => 0%Z
  end.

(** [int(max - min)] before the truncation, for the corners [0 + t] and
    [s + t]. *)
Definition translated_extent_binary64 (s t : spec_float) : spec_float :=
  binary64_sub (binary64_add s t) (binary64_add (S754_zero false) t).

(** * Properties *)

(** ** The monad *)

Lemma bind_ret {A B} (a : A) (f : A → M B) : (ret a ≫= f) = f a.
Proof. unfold mbind, M_bind, bind, ret. destruct (f a) as [ws r]. reflexivity. Qed.

Lemma snd_bind {A B} (m : M A) (f : A → M B) :
  (m ≫= f).2 = match m.2 with Ok a => (f a).2 | Raise e => Raise e end.
Proof.
  destruct m as [ws [a|e]]; simpl; [|done].
  unfold mbind, M_bind, bind. by destruct (f a).
Qed.

Lemma succeeds_snd {A} (m : M A) : succeeds m ↔ ∃ a, m.2 = Ok a.
Proof.
  destruct m as [ws r]. split.
  - intros (? & a & [= -> ->]). by exists a.
  - intros [a Ha]. simpl in Ha. subst. by exists ws, a.
Qed.

Lemma fails_with_snd {A} (m : M A) e : fails_with m e ↔ m.2 = Raise e.
Proof.
  destruct m as [ws r]. split.
  - by intros (? & [= -> ->]).
  - simpl. intros ->. by exists ws.
Qed.

(** ** Registry, adjuster and resolver *)

Section registry_facts.
Variable D : string.

Lemma map_size_1_lookup (m : Registry) k v :
  size m = 1%nat → m !! k = Some v → m = {[k := v]}.
Proof.
  intros Hsz Hk.
  assert (Hd : delete k m = ∅).
  { apply map_size_empty_inv. rewrite map_size_delete_Some by eauto. lia. }
  rewrite <- (insert_delete_id m k v Hk), Hd. done.
Qed.

Lemma map_fold_prepend (f : BaseTransformation → BaseTransformation) (old : Registry) :
  map_fold (fun cs t reg => set_transformation D reg (f t) (Some cs)) ∅ old = f <$> old.
Proof.
  apply (map_fold_weak_ind (fun r m => r = f <$> m)).
  - by rewrite fmap_empty.
  - intros i x m r Hi ->. unfold set_transformation. simpl. by rewrite fmap_insert.
Qed.
End registry_facts.

(** C1. With the placeholder registry in place, the adjuster rewrites the
    registry of the transformed element as follows.  With
    [maintain_positioning = true] every pair [(cs, old_t)] of the old registry
    becomes the entry [cs ↦ Sequence [to_prepend; old_t]], where [to_prepend]
    is [Sequence [raster_translation; transformation.inverse()]] for the two
    raster classes and [transformation.inverse()] for points and shapes, and
    nothing else is in the new registry.  With [maintain_positioning = false]
    the new registry is a single entry, valued [raster_translation] (rasters)
    or [Identity] (points, shapes); its key is the [to_coordinate_system] the
    adjuster is given, and the default coordinate-system name when it is
    given none.  The four callers in [transform] give it none, so that the
    entry of a transformed element is filed under the default name whatever
    target the user asked for.  Any other class is a [TypeError]. *)
Theorem adjust_transformations_rewrites_registry
    (D : string) (element : ElementType) (old : Registry)
    (transformation rt : BaseTransformation)
    (to_coordinate_system : option string) :
  let placeholder : Registry := {[D := Identity]} in
  let adjust := _adjust_transformations D element placeholder old transformation in
  let key := match to_coordinate_system with Some cs => cs | None => D end in
  match element with
  | SpatialImage | MultiscaleSpatialImage =>
      (∀ tinv, inverse transformation = ret tinv →
         adjust (Some rt) true None
         = ret ((λ old_t, Sequence [Sequence [rt; tinv]; old_t]) <$> old)) ∧
      adjust (Some rt) false to_coordinate_system = ret {[key := rt]}
  | GeoDataFrame | DaskDataFrame =>
      (∀ tinv, inverse transformation = ret tinv →
         adjust None true None
         = ret ((λ old_t, Sequence [tinv; old_t]) <$> old)) ∧
      adjust None false to_coordinate_system = ret {[key := Identity]}
  | OtherElement =>
      ∀ rt' mp to_cs, (mp = true → to_cs = None) →
        fails_with (adjust rt' mp to_cs) TypeError
  end.
Proof.
  intros placeholder adjust key. subst adjust placeholder key.
  unfold _adjust_transformations, get_all_transformations,
    remove_all_transformations.
  destruct element; simpl.
  all: try (split; [intros tinv Hinv; rewrite Hinv|]).
  all: rewrite ?bind_ret; simpl.
  all: rewrite ?map_size_singleton, ?lookup_singleton_eq; simpl.
  all: rewrite ?bind_ret; simpl.
  all: rewrite ?map_fold_prepend; try reflexivity.
  all: try (unfold set_transformation, resolve_cs;
            by destruct to_coordinate_system).
  intros rt' [] to_cs H.
  - rewrite H by done. simpl. by eexists.
  - by eexists.
Qed.

Lemma is_Identity_true t : is_Identity t = true → t = Identity.
Proof. by destruct t. Qed.

(** C7. The adjuster goes through only on the placeholder registry
    [{DEFAULT_COORDINATE_SYSTEM: Identity}]: if it returns, the registry of the
    element it was given was exactly that; and on any other registry, inputs on
    which it would otherwise return end in an [AssertionError] (wrong number
    of entries, or the entry is not an [Identity]) or in the [KeyError] of the
    lookup of the default name, never in the user-level [RuntimeError]. *)
Theorem adjust_transformations_checks_placeholder
    (D : string) (element : ElementType) (reg old : Registry)
    (transformation : BaseTransformation)
    (raster_translation : option BaseTransformation)
    (maintain_positioning : bool) (to_coordinate_system : option string) :
  let adjust r :=
    _adjust_transformations D element r old transformation raster_translation
      maintain_positioning to_coordinate_system in
  (succeeds (adjust reg) → reg = {[D := Identity]}) ∧
  (reg ≠ {[D := Identity]} → succeeds (adjust {[D := Identity]}) →
     fails_with (adjust reg) AssertionError ∨ fails_with (adjust reg) KeyError).
Proof.
  intros adjust. subst adjust. cbv beta.
  rewrite !succeeds_snd, !fails_with_snd.
  unfold _adjust_transformations, get_all_transformations.
  rewrite !snd_bind.
  destruct (_ : M unit).2 as [[]|e0]; [|split; [by intros [??]|by intros _ [??]]].
  destruct (_ : M (option BaseTransformation)).2 as [[to_prepend|]|e1]; simpl.
  2,3: split; [by intros [??]|by intros _ [??]].
  rewrite ?snd_bind.
  destruct (Nat.eqb_spec (size reg) 1) as [Hsz|Hsz]; simpl.
  2:{ split; [by intros [??]|]. intros _ _. by left. }
  rewrite ?snd_bind.
  destruct (reg !! D) as [t0|] eqn:HD; simpl.
  2:{ split; [by intros [??]|]. intros _ _. by right. }
  destruct (is_Identity t0) eqn:Ht0; simpl.
  2:{ split; [by intros [??]|]. intros _ _. by left. }
  apply is_Identity_true in Ht0 as ->.
  pose proof (map_size_1_lookup reg D Identity Hsz HD).
  split; [done|]. done.
Qed.

Lemma map_size_1_singleton (m : Registry) :
  size m = 1%nat → ∃ k v, m = {[k := v]} ∧ map_to_list m = [(k, v)].
Proof.
  intros Hsz.
  destruct (map_to_list m) as [|[k v] l] eqn:Hl.
  { apply map_to_list_empty_iff in Hl. subst. by rewrite map_size_empty in Hsz. }
  assert (Hk : m !! k = Some v).
  { apply elem_of_map_to_list. rewrite Hl. left. }
  exists k, v. pose proof (map_size_1_lookup m k v Hsz Hk) as ->.
  split; [done|]. by rewrite <- Hl, map_to_list_singleton.
Qed.

(** C4. With [maintain_positioning = false] and an explicit transformation,
    resolution returns (after the deprecation warning) the transformation and
    the single registry key exactly when no target coordinate system is given,
    the registry has exactly one entry, and that entry equals the
    transformation; in every other case (a target is also given, the registry
    does not have exactly one entry, or the entry differs) it raises the
    [RuntimeError] carrying [ERROR_MSG_AFTER_0_0_15]. *)
Theorem validate_explicit_transform_without_positioning
    (D : string) (d : Registry) (t : BaseTransformation)
    (to_coordinate_system : option string) :
  let resolve :=
    _validate_target_coordinate_systems D d (Some t) false to_coordinate_system in
  (∀ k dk, to_coordinate_system = None → d = {[k := dk]} →
     transformation_eqb t dk = true →
     resolve = ([UserWarning_ERROR_MSG_AFTER_0_0_15], Ok (t, Some k))) ∧
  (is_Some to_coordinate_system ∨ size d ≠ 1%nat ∨
   (∀ k dk, d !! k = Some dk → transformation_eqb t dk = false) →
     resolve = ([], Raise RuntimeError)) ∧
  (succeeds resolve →
     to_coordinate_system = None ∧
     ∃ k dk, d = {[k := dk]} ∧ transformation_eqb t dk = true).
Proof.
  intros resolve. subst resolve.
  unfold _validate_target_coordinate_systems, get_all_transformations. simpl.
  split; [|split].
  - intros k dk -> -> Heq.
    rewrite map_size_singleton, map_to_list_singleton. simpl. by rewrite Heq.
  - intros [[cs ->]|[Hsz|Hne]]; [done| |].
    + destruct to_coordinate_system; [done|].
      by destruct (Nat.eqb_spec (size d) 1).
    + destruct to_coordinate_system; [done|].
      destruct (Nat.eqb_spec (size d) 1) as [Hsz|]; [|done].
      destruct (map_size_1_singleton d Hsz) as (k & dk & -> & ->).
      by rewrite (Hne k dk) by apply lookup_singleton_eq.
  - intros (ws & res & Hres).
    destruct to_coordinate_system; [done|].
    destruct (Nat.eqb_spec (size d) 1) as [Hsz|]; [|done].
    destruct (map_size_1_singleton d Hsz) as (k & dk & -> & Hl).
    rewrite Hl in Hres.
    destruct (transformation_eqb t dk) eqn:Heq; [|done].
    split; [done|]. by exists k, dk.
Qed.

(** ** Extremes of a list, truncation *)

Lemma Qmax_cases x y : (Qmax x y = x ∧ y <= x) ∨ (Qmax x y = y ∧ x <= y).
Proof.
  unfold Qmax, GenericMinMax.gmax. destruct (Qcompare x y) eqn:H.
  - left. split; [done|]. apply Qeq_alt in H. rewrite H. apply Qle_refl.
  - right. split; [done|]. apply Qlt_le_weak. by apply Qlt_alt.
  - left. split; [done|]. apply Qlt_le_weak. by apply Qgt_alt.
Qed.

Lemma Qmin_cases x y : (Qmin x y = x ∧ x <= y) ∨ (Qmin x y = y ∧ y <= x).
Proof.
  unfold Qmin, GenericMinMax.gmin. destruct (Qcompare x y) eqn:H.
  - left. split; [done|]. apply Qeq_alt in H. rewrite H. apply Qle_refl.
  - left. split; [done|]. apply Qlt_le_weak. by apply Qlt_alt.
  - right. split; [done|]. apply Qlt_le_weak. by apply Qgt_alt.
Qed.

Lemma fold_left_Qmax l x :
  fold_left Qmax l x ∈ x :: l ∧
  x <= fold_left Qmax l x ∧ Forall (fun y => y <= fold_left Qmax l x) l.
Proof.
  revert x. induction l as [|y l IH]; intros x; simpl.
  { split; [left|]. split; [apply Qle_refl|constructor]. }
  destruct (IH (Qmax x y)) as (Hin & Hle & Hall).
  destruct (Qmax_cases x y) as [[Hm Hxy]|[Hm Hxy]]; rewrite Hm in *.
  - split; [|split; [done|]].
    + apply elem_of_cons in Hin as [->|Hin]; [left|right; by right].
    + constructor; [|done]. by apply Qle_trans with x.
  - split; [|split].
    + right. done.
    + by apply Qle_trans with y.
    + by constructor.
Qed.

Lemma fold_left_Qmin l x :
  fold_left Qmin l x ∈ x :: l ∧
  fold_left Qmin l x <= x ∧ Forall (fun y => fold_left Qmin l x <= y) l.
Proof.
  revert x. induction l as [|y l IH]; intros x; simpl.
  { split; [left|]. split; [apply Qle_refl|constructor]. }
  destruct (IH (Qmin x y)) as (Hin & Hle & Hall).
  destruct (Qmin_cases x y) as [[Hm Hxy]|[Hm Hxy]]; rewrite Hm in *.
  - split; [|split; [done|]].
    + apply elem_of_cons in Hin as [->|Hin]; [left|right; by right].
    + constructor; [|done]. by apply Qle_trans with x.
  - split; [|split].
    + right. done.
    + by apply Qle_trans with y.
    + by constructor.
Qed.

Lemma np_max_is_maximum l : l ≠ [] → is_maximum (np_max l) l.
Proof.
  destruct l as [|x l]; [done|]. intros _. unfold np_max.
  destruct (fold_left_Qmax l x) as (Hin & Hle & Hall).
  split; [done|]. by constructor.
Qed.

Lemma np_min_is_minimum l : l ≠ [] → is_minimum (np_min l) l.
Proof.
  destruct l as [|x l]; [done|]. intros _. unfold np_min.
  destruct (fold_left_Qmin l x) as (Hin & Hle & Hall).
  split; [done|]. by constructor.
Qed.

Lemma int_nonneg (x : Q) : 0 <= x → int x = Qfloor x.
Proof.
  destruct x as [n d]. unfold Qle, int, Qfloor. simpl. intros H.
  apply Z.quot_div_nonneg; lia.
Qed.

Lemma minimum_le_maximum lo hi l : is_minimum lo l → is_maximum hi l → lo <= hi.
Proof.
  intros [Hlo _] [_ Hhi]. rewrite Forall_forall in Hhi. by apply Hhi.
Qed.

(** ** The corner points *)

Lemma length_product01 n : length (product01 n) = (2 ^ n)%nat.
Proof.
  induction n as [|n IH]; [done|].
  cbn [product01]. rewrite length_app, !length_map, IH. simpl. lia.
Qed.

Lemma elem_of_product01 n b :
  b ∈ product01 n ↔ length b = n ∧ Forall (fun x => x = 0%Z ∨ x = 1%Z) b.
Proof.
  revert b. induction n as [|n IH]; intros b; cbn [product01].
  - rewrite list_elem_of_singleton. split.
    + intros ->. by split.
    + intros [H _]. by destruct b.
  - rewrite elem_of_app, !list_elem_of_fmap. split.
    + intros [(b' & -> & Hb')|(b' & -> & Hb')]; apply IH in Hb' as [<- Hall];
        (split; [done|]); constructor; auto.
    + intros [Hlen Hall]. destruct b as [|x b]; [done|].
      simpl in Hlen. injection Hlen as Hlen.
      apply Forall_cons in Hall as [[-> | ->] Hall]; [left|right];
        exists b; (split; [done|]); apply IH; split; auto.
Qed.

Lemma corner_of_product01 (s : list Z) (p : list Z) :
  p ∈ map (fun b => zip_with Z.mul b s) (product01 (length s)) ↔ is_corner s p.
Proof.
  rewrite list_elem_of_fmap. unfold is_corner. split.
  - intros (b & -> & Hb). apply elem_of_product01 in Hb as [Hlen Hall].
    revert b Hlen Hall. induction s as [|x s IH]; intros [|y b] Hlen Hall; try done.
    apply Forall_cons in Hall as [Hy Hall]. simpl. constructor.
    + destruct Hy as [-> | ->]; [left|right]; lia.
    + apply IH; [|done]. simpl in Hlen. lia.
  - intros H. induction H as [|x y p s Hxy H IH].
    + exists []. split; [done|]. by left.
    + destruct IH as (b & -> & Hb). apply elem_of_product01 in Hb as [Hlen Hall].
      destruct (decide (x = 0%Z)) as [->|Hx0].
      * exists (0%Z :: b). split; [done|]. apply elem_of_product01. simpl.
        split; [by rewrite Hlen|]. constructor; auto.
      * destruct Hxy as [-> | ->]; [done|]. exists (1%Z :: b).
        split; [simpl; f_equal; lia|]. apply elem_of_product01. simpl.
        split; [by rewrite Hlen|]. constructor; auto.
Qed.

(** ** [_transform_raster] *)

Lemma has_axis_elem_of a axes : a ∈ axes → has_axis a axes = true.
Proof.
  intros H. unfold has_axis. apply existsb_exists. exists a.
  split; [by apply list_elem_of_In|apply String.eqb_refl].
Qed.

Lemma check_axes_refl axes : check_axes axes axes = ret tt.
Proof.
  unfold check_axes.
  assert (forallb (fun a => has_axis a axes) axes = true) as ->; [|done].
  apply forallb_forall. intros a Ha. apply has_axis_elem_of.
  by apply list_elem_of_In.
Qed.

Lemma to_affine_matrix_Translation_self v axes :
  to_affine_matrix (Translation v axes) axes
  = ret (affine_rows axes delta (fun a => axis_entry v axes a 0)).
Proof. simpl. by rewrite check_axes_refl. Qed.

Lemma transform_raster_eq data axes t kw n m tinv mi :
  _get_n_spatial_dims axes = ret n →
  to_affine_matrix t axes = ret m →
  inverse t = ret tinv →
  to_affine_matrix tinv axes = ret mi →
  let new_v := raster_new_v data axes n m in
  let c_shape := if has_axis "c" axes then take 1 (shape data) else [] in
  let new_spatial_shape :=
    map (fun i => int (np_max (column i new_v) - np_min (column i new_v)))
        (seq (length c_shape) n) in
  let translation := Translation (raster_translation_vector new_v axes) axes in
  ∃ mt,
    to_affine_matrix translation axes = ret mt ∧
    to_affine_matrix (Sequence [translation; tinv]) axes
      = ret (mat_mul mi (mat_mul mt (identity_matrix (S (length axes))))) ∧
    _transform_raster data axes t kw
    = ret (affine_transform data
             (mat_mul mi (mat_mul mt (identity_matrix (S (length axes)))))
             (c_shape ++ new_spatial_shape) kw,
           Sequence
             [Translation
                (map (fun p => - p / 2 + (1 # 2))
                   (zip_with Qdiv (map inject_Z new_spatial_shape)
                      (map inject_Z (spatial_shape_of data n))))
                (drop (length axes - n) axes);
              translation]).
Proof.
  intros Hn Hm Hinv Hmi new_v c_shape new_spatial_shape translation.
  eexists. split; [apply to_affine_matrix_Translation_self|].
  assert (Hseq : to_affine_matrix (Sequence [translation; tinv]) axes
    = ret (mat_mul mi (mat_mul
             (affine_rows axes delta
                (fun a => axis_entry (raster_translation_vector new_v axes) axes a 0))
             (identity_matrix (S (length axes)))))).
  { change (to_affine_matrix (Sequence [translation; tinv]) axes)
      with (m1 ← to_affine_matrix translation axes;
            m2 ← to_affine_matrix tinv axes;
            ret (mat_mul m2 (mat_mul m1 (identity_matrix (S (length axes)))))).
    subst translation. rewrite to_affine_matrix_Translation_self, bind_ret.
    by rewrite Hmi, bind_ret. }
  split; [done|].
  unfold _transform_raster. rewrite Hn, bind_ret, Hm, bind_ret, Hinv, bind_ret.
  fold new_v c_shape. fold (raster_new_v data axes n m). fold new_v.
  fold (raster_translation_vector new_v axes). fold translation.
  by rewrite Hseq, bind_ret.
Qed.

Lemma get_n_spatial_dims_inv axes n :
  _get_n_spatial_dims axes = ret n →
  (axes = ["c"; "z"; "y"; "x"] ∧ n = 3%nat) ∨
  (axes = ["c"; "y"; "x"] ∧ n = 2%nat) ∨
  (axes = ["z"; "y"; "x"] ∧ n = 3%nat) ∨
  (axes = ["y"; "x"] ∧ n = 2%nat).
Proof.
  assert (Heq : ∀ l1 l2, axes_eqb l1 l2 = true → l1 = l2).
  { induction l1 as [|a l1 IH]; intros [|b l2]; simpl; try done.
    intros [Hab H]%andb_prop. apply String.eqb_eq in Hab as ->.
    f_equal. by apply IH. }
  unfold _get_n_spatial_dims.
  repeat match goal with
  | |- context [axes_eqb axes ?l] =>
      let H := fresh in
      destruct (axes_eqb axes l) eqn:H; [apply Heq in H; intros [= <-]; tauto|]
  end.
  done.
Qed.

Lemma corner_points_length n s has_c :
  length (corner_points n s has_c) = (2 ^ n)%nat.
Proof. unfold corner_points. by rewrite !length_map, length_product01. Qed.

Lemma elem_of_corner_points s has_c p :
  p ∈ corner_points (length s) s has_c ↔
  ∃ b, is_corner s b ∧
       p = (if has_c then [0] else []) ++ map inject_Z b ++ [1].
Proof.
  unfold corner_points. rewrite list_elem_of_fmap. split.
  - intros (b & -> & Hb). exists b. split; [|done]. by apply corner_of_product01.
  - intros (b & Hb & ->). exists b. split; [done|]. by apply corner_of_product01.
Qed.

(** C3 (amended). Whenever the axes are one of the raster layouts and the
    transformation materialises and inverts, [_transform_raster] returns, and
    the shape of the returned array is the channel extent (if any) followed,
    for each of the [n] spatial axes, by [int(max - min)] of that axis's
    coordinate over the [2^n] transformed corner points of the spatial extent.
    [int] truncates towards zero; as [max - min] is never negative this is the
    floor of [max - min], not its ceiling. *)
Theorem transform_raster_output_shape data axes t kw n m tinv mi :
  _get_n_spatial_dims axes = ret n →
  to_affine_matrix t axes = ret m →
  inverse t = ret tinv →
  to_affine_matrix tinv axes = ret mi →
  length (shape data) = length axes →
  let c := if has_axis "c" axes then 1%nat else 0%nat in
  let spatial_shape := spatial_shape_of data n in
  let v := corner_points n spatial_shape (has_axis "c" axes) in
  let new_v := transformed_corners m v in
  length new_v = (2 ^ n)%nat ∧
  (∀ p, p ∈ v ↔
        ∃ b, is_corner spatial_shape b ∧
             p = (if has_axis "c" axes then [0] else []) ++ map inject_Z b ++ [1]) ∧
  ∃ out rt,
    _transform_raster data axes t kw = ret (out, rt) ∧
    length (shape out) = (c + n)%nat ∧
    take c (shape out) = take c (shape data) ∧
    ∀ k, (k < n)%nat →
      ∃ lo hi,
        is_minimum lo (column (c + k) new_v) ∧
        is_maximum hi (column (c + k) new_v) ∧
        shape out !! (c + k)%nat = Some (int (hi - lo)) ∧
        int (hi - lo) = Qfloor (hi - lo).
Proof.
  intros Hn Hm Hinv Hmi Hlen c spatial_shape v new_v.
  assert (Hc : length axes = (c + n)%nat ∧ (n <= length axes)%nat).
  { subst c. destruct (get_n_spatial_dims_inv _ _ Hn)
      as [[-> ->]|[[-> ->]|[[-> ->]|[-> ->]]]]; simpl; lia. }
  destruct Hc as [Hc Hnle].
  assert (Hs : length spatial_shape = n).
  { subst spatial_shape. unfold spatial_shape_of. rewrite length_drop. lia. }
  split; [|split].
  - subst new_v v. unfold transformed_corners.
    by rewrite length_map, corner_points_length.
  - intros p. subst v. rewrite <- Hs at 1. apply elem_of_corner_points.
  - destruct (transform_raster_eq data axes t kw n m tinv mi Hn Hm Hinv Hmi)
      as (mt & _ & _ & ->).
    eexists _, _. split; [reflexivity|]. simpl.
    fold spatial_shape v new_v. fold (raster_new_v data axes n m).
    change (raster_new_v data axes n m) with new_v.
    set (c_shape := if has_axis "c" axes then take 1 (shape data) else []).
    assert (Hcs : length c_shape = c ∧ c_shape = take c (shape data)).
    { subst c_shape c. destruct (has_axis "c" axes); [|done].
      split; [|done]. rewrite length_take. lia. }
    destruct Hcs as [Hcs Hcs'].
    split; [by rewrite length_app, length_map, length_seq, Hcs|].
    split.
    { rewrite take_app_length'; [done|]. by rewrite Hcs. }
    intros k Hk.
    assert (Hne : column (c + k) new_v ≠ []).
    { intros H. apply (f_equal length) in H. unfold column in H.
      rewrite length_map in H. subst new_v v. unfold transformed_corners in H.
      rewrite length_map, corner_points_length in H. simpl in H.
      pose proof (Nat.pow_nonzero 2 n). lia. }
    exists (np_min (column (c + k) new_v)), (np_max (column (c + k) new_v)).
    pose proof (np_min_is_minimum _ Hne) as Hmin.
    pose proof (np_max_is_maximum _ Hne) as Hmax.
    split; [done|]. split; [done|]. split.
    + rewrite lookup_app_r by lia. rewrite Hcs.
      replace (c + k - c)%nat with k by lia.
      by rewrite list_lookup_fmap, lookup_seq_lt by done.
    + apply int_nonneg. pose proof (minimum_le_maximum _ _ _ Hmin Hmax) as Hle.
      by apply Qle_minus_iff in Hle.
Qed.

Lemma transform_raster_output_shape_witness :
  ∃ out rt,
    _transform_raster (source_array "image" [3; 3]%Z) ["y"; "x"]
      (Scale [1 # 2; 1 # 2] ["y"; "x"]) kwargs_spatial_image = ret (out, rt) ∧
    shape out !! 0%nat = Some 1%Z.
Proof.
  edestruct (transform_raster_output_shape (source_array "image" [3; 3]%Z)
               ["y"; "x"] (Scale [1 # 2; 1 # 2] ["y"; "x"])
               kwargs_spatial_image 2%nat)
    as (_ & _ & out & rt & Hrun & _ & _ & Hk);
    [reflexivity|vm_compute; reflexivity|vm_compute; reflexivity
    |vm_compute; reflexivity|reflexivity|].
  exists out, rt. split; [exact Hrun|].
  injection Hrun as <- _. reflexivity.
Defined.

(** C3, as stated, fails on a 3x3 raster scaled by one half: the transformed
    extent is 1.5 per axis, the code returns the shape (1, 1), the ceiling
    is 2. *)
Lemma output_shape_is_not_ceiling :
  ¬ output_shape_is_ceiling (source_array "image" [3; 3]%Z) ["y"; "x"]
      (Scale [1 # 2; 1 # 2] ["y"; "x"]) kwargs_spatial_image.
Proof.
  intros H.
  eassert (E2 : to_affine_matrix (Scale [1 # 2; 1 # 2] ["y"; "x"]) ["y"; "x"]
                = ret _) by (vm_compute; reflexivity).
  eassert (E3 : _transform_raster (source_array "image" [3; 3]%Z) ["y"; "x"]
                  (Scale [1 # 2; 1 # 2] ["y"; "x"]) kwargs_spatial_image
                = ret (_, _)) by (vm_compute; reflexivity).
  specialize (H 2%nat _ _ _ eq_refl E2 E3 0%nat ltac:(lia)).
  vm_compute in H. discriminate H.
Qed.

Lemma column_new_v_nonempty data axes n m i :
  column i (raster_new_v data axes n m) ≠ [].
Proof.
  intros H. apply (f_equal length) in H. unfold column, raster_new_v in H.
  unfold transformed_corners in H.
  rewrite !length_map, corner_points_length in H. simpl in H.
  pose proof (Nat.pow_nonzero 2 n). lia.
Qed.

(** C2 (amended). For a raster layout and a transformation that materialises
    and inverts, the matrix handed to [affine_transform] is the matrix of
    [Sequence [translation; transformation.inverse()]] itself, that is
    [M(t.inverse()) @ M(translation)], which maps an output pixel to its
    source location; [translation] is the [Translation] by the per-axis
    minimum of the transformed corner points.  No further inversion takes
    place. *)
Theorem transform_raster_resampling_matrix data axes t kw n m tinv mi :
  _get_n_spatial_dims axes = ret n →
  to_affine_matrix t axes = ret m →
  inverse t = ret tinv →
  to_affine_matrix tinv axes = ret mi →
  let new_v := raster_new_v data axes n m in
  let translation := Translation (raster_translation_vector new_v axes) axes in
  ∃ mt output_shape rt,
    (∀ i, (i < length axes)%nat →
       ∃ lo, raster_translation_vector new_v axes !! i = Some lo ∧
             is_minimum lo (column i new_v)) ∧
    to_affine_matrix translation axes = ret mt ∧
    to_affine_matrix (Sequence [translation; tinv]) axes
      = ret (mat_mul mi (mat_mul mt (identity_matrix (S (length axes))))) ∧
    _transform_raster data axes t kw
    = ret (affine_transform data
             (mat_mul mi (mat_mul mt (identity_matrix (S (length axes)))))
             output_shape kw, rt).
Proof.
  intros Hn Hm Hinv Hmi new_v translation.
  destruct (transform_raster_eq data axes t kw n m tinv mi Hn Hm Hinv Hmi)
    as (mt & Hmt & Hseq & Hrun).
  exists mt. eexists _, _. split; [|split; [exact Hmt|split; [exact Hseq|exact Hrun]]].
  intros i Hi. exists (np_min (column i new_v)). split.
  - unfold raster_translation_vector.
    by rewrite list_lookup_fmap, lookup_seq_lt.
  - apply np_min_is_minimum, column_new_v_nonempty.
Qed.

Lemma transform_raster_resampling_matrix_witness :
  ∃ output_shape rt,
    _transform_raster (source_array "image" [2; 2]%Z) ["y"; "x"]
      (Scale [2; 2] ["y"; "x"]) kwargs_spatial_image
    = ret (affine_transform (source_array "image" [2; 2]%Z)
             (mat_mul [[1 # 2; 0; 0]; [0; 1 # 2; 0]; [0; 0; 1]]
                (mat_mul [[1; 0; 0]; [0; 1; 0]; [0; 0; 1]] (identity_matrix 3)))
             output_shape kwargs_spatial_image, rt).
Proof.
  edestruct (transform_raster_resampling_matrix (source_array "image" [2; 2]%Z)
               ["y"; "x"] (Scale [2; 2] ["y"; "x"]) kwargs_spatial_image 2%nat
               [[2; 0; 0]; [0; 2; 0]; [0; 0; 1]]
               (Scale [/ 2; / 2] ["y"; "x"])
               [[/ 2; 0; 0]; [0; / 2; 0]; [0; 0; 1]])
    as (mt & output_shape & rt & _ & Hmt & _ & Hrun);
    [reflexivity|reflexivity|reflexivity|reflexivity|].
  exists output_shape, rt. injection Hmt as <-. exact Hrun.
Defined.

(** C2, as stated, fails on a 2x2 raster scaled by two: the matrix passed
    is [diag(1/2, 1/2, 1)], the matrix of the sequence itself; it is not an
    inverse of that matrix, their product being [diag(1/4, 1/4, 1)]. *)
Lemma resampling_matrix_is_not_inverse_of_sequence :
  ¬ resampling_matrix_is_inverse_of_sequence (source_array "image" [2; 2]%Z)
      ["y"; "x"] (Scale [2; 2] ["y"; "x"]) kwargs_spatial_image.
Proof.
  intros H.
  eassert (E2 : to_affine_matrix (Scale [2; 2] ["y"; "x"]) ["y"; "x"] = ret _)
    by (vm_compute; reflexivity).
  eassert (E3 : inverse (Scale [2; 2] ["y"; "x"]) = ret _)
    by (vm_compute; reflexivity).
  eassert (E4 : _transform_raster (source_array "image" [2; 2]%Z) ["y"; "x"]
                  (Scale [2; 2] ["y"; "x"]) kwargs_spatial_image
                = ret (affine_transform _ _ _ _, _)) by (vm_compute; reflexivity).
  eassert (E5 : to_affine_matrix (Sequence [Translation _ _; _]) ["y"; "x"] = ret _);
    [|specialize (H 2%nat _ _ _ _ _ _ eq_refl E2 E3 E4 E5)].
  { vm_compute. reflexivity. }
  destruct H as [H _]. vm_compute in H.
  inversion H as [|? ? ? ? Hrow _]. inversion Hrow as [|? ? ? ? Hq _].
  vm_compute in Hq. discriminate Hq.
Qed.





(** ** Pure translations of a raster *)









(** The program computes in binary64.  The extent of an axis of 256 pixels
    translated by 0.02 comes out as [255.99999999999997], which [int]
    truncates to 255: the sum [256 + 0.02] is rounded, and subtracting
    [0.02] again does not give 256 back.  For a translation by a whole
    number the sums are exact and the extent is kept. *)
Lemma translated_extent_binary64_loses_a_pixel :
  binary64_int
    (translated_extent_binary64 (binary64_of_Z 256) binary64_two_hundredths)
  = 255%Z ∧
  binary64_int (translated_extent_binary64 (binary64_of_Z 256) (binary64_of_Z 5))
  = 256%Z.
Proof. split; vm_compute; reflexivity. Qed.




Lemma adjust_transformations_rewrites_registry_witness :
  _adjust_transformations "global" SpatialImage {["global" := Identity]}
    {["aligned" := Scale [3; 3] ["y"; "x"]]} (Scale [2; 2] ["y"; "x"])
    (Some (Translation [1; 1] ["y"; "x"])) true None
  = ret {["aligned" :=
            Sequence [Sequence [Translation [1; 1] ["y"; "x"];
                                Scale [/ 2; / 2] ["y"; "x"]];
                      Scale [3; 3] ["y"; "x"]]]} ∧
  _adjust_transformations "global" SpatialImage {["global" := Identity]}
    {["aligned" := Scale [3; 3] ["y"; "x"]]} (Scale [2; 2] ["y"; "x"])
    (Some (Translation [1; 1] ["y"; "x"])) false None
  = ret {["global" := Translation [1; 1] ["y"; "x"]]} ∧
  _adjust_transformations "global" DaskDataFrame {["global" := Identity]}
    {["aligned" := Scale [3; 3] ["x"; "y"]]} (Scale [2; 2] ["x"; "y"])
    None false None
  = ret {["global" := Identity]}.
Proof.
  destruct (adjust_transformations_rewrites_registry "global" SpatialImage
              {["aligned" := Scale [3; 3] ["y"; "x"]]}
              (Scale [2; 2] ["y"; "x"]) (Translation [1; 1] ["y"; "x"])
              None) as [Htrue Hfalse].
  destruct (adjust_transformations_rewrites_registry "global" DaskDataFrame
              {["aligned" := Scale [3; 3] ["x"; "y"]]}
              (Scale [2; 2] ["x"; "y"]) Identity None) as [_ Hpoints].
  split; [|split; [exact Hfalse|exact Hpoints]].
  rewrite (Htrue (Scale [/ 2; / 2] ["y"; "x"]) eq_refl).
  by rewrite map_fmap_singleton.
Defined.

(** C1, end to end.  A points element registered in the coordinate systems
    [global] and [aligned] is transformed to [aligned] without
    [maintain_positioning]: the one entry of the registry of the result is
    filed under [global], and the result is not registered in [aligned], the
    coordinate system it was transformed to. *)
Lemma transform_files_entry_under_default_not_target :
  ∃ out,
    (transform_points "global"
       {| df_len := 2; df_columns := [("x", [1; 3]); ("y", [2; 4])];
          df_axes := ["x"; "y"];
          df_transform := {["global" := Identity;
                            "aligned" := Scale [2; 2] ["x"; "y"]]} |}
       None false (Some "aligned")).2 = Ok out ∧
    df_columns out = [("x", [2; 6]); ("y", [4; 8])] ∧
    df_transform out = {["global" := Identity]} ∧
    df_transform out !! "aligned" = None.
Proof. eexists. split; [vm_compute; reflexivity|]. by vm_compute. Qed.

Lemma adjust_transformations_checks_placeholder_witness :
  fails_with
    (_adjust_transformations "global" DaskDataFrame ∅ ∅ Identity None false None)
    AssertionError
  ∨ fails_with
      (_adjust_transformations "global" DaskDataFrame ∅ ∅ Identity None false None)
      KeyError.
Proof.
  destruct (adjust_transformations_checks_placeholder "global" DaskDataFrame
              ∅ ∅ Identity None false None) as [_ H].
  apply H.
  - intros Heq. apply (f_equal size) in Heq.
    rewrite map_size_empty, map_size_singleton in Heq. discriminate Heq.
  - eexists _, _. vm_compute. reflexivity.
Defined.

Lemma validate_explicit_transform_without_positioning_witness :
  _validate_target_coordinate_systems "global" {["aligned" := Scale [2; 2] ["y"; "x"]]}
    (Some (Scale [2; 2] ["y"; "x"])) false None
  = ([UserWarning_ERROR_MSG_AFTER_0_0_15],
     Ok (Scale [2; 2] ["y"; "x"], Some "aligned")).
Proof.
  destruct (validate_explicit_transform_without_positioning "global"
              {["aligned" := Scale [2; 2] ["y"; "x"]]}
              (Scale [2; 2] ["y"; "x"]) None) as [H _].
  apply (H "aligned" (Scale [2; 2] ["y"; "x"])); reflexivity.
Defined.

(** ** The multiscale dispatcher *)

Lemma dict_set_fresh {A} (k : string) (v : A) (d : list (string * A)) :
  k ∉ d.*1 → dict_set k v d = d ++ [(k, v)].
Proof.
  induction d as [|[k' v'] d IH]; simpl; [done|].
  intros Hk. apply not_elem_of_cons in Hk as [Hne Hk].
  destruct (String.eqb_spec k k') as [->|_]; [done|]. by rewrite IH.
Qed.

Lemma level_transformation_snd _get_scale k xdata t composed :
  (level_transformation _get_scale k xdata t).2 = Ok composed ↔
  if String.eqb k "scale0" then composed = t
  else ∃ scale scale_inverse,
      (_get_scale (xr_transform xdata)).2 = Ok scale ∧
      (inverse scale).2 = Ok scale_inverse ∧
      composed = Sequence [scale; t; scale_inverse].
Proof.
  unfold level_transformation. destruct (String.eqb k "scale0").
  - simpl. split; [by intros [= ->]|by intros ->].
  - rewrite snd_bind. destruct (_get_scale _).2 as [scale|e]; simpl.
    2:{ split; [done|]. by intros (? & ? & ? & _). }
    rewrite snd_bind. destruct (inverse scale).2 as [scale_inverse|e] eqn:Hinv; simpl.
    2:{ split; [done|]. intros (s & si & [= <-] & Hsi & _). congruence. }
    split.
    + intros [= <-]. by exists scale, scale_inverse.
    + intros (s & si & [= <-] & Hsi & ->). congruence.
Qed.

Lemma transform_levels_spec _get_scale t kw items acc rt0 out :
  NoDup (acc.*1 ++ items.*1) →
  (∃ rt, (transform_levels _get_scale t kw items acc rt0).2 = Ok (out, rt)) ↔
  ∃ out', out = acc ++ out' ∧
          Forall2 (level_transformed _get_scale t kw) items out'.
Proof.
  revert acc rt0. induction items as [|[k v] items IH]; intros acc rt0 Hnd.
  - simpl. split.
    + intros [rt [= <- <-]]. exists []. by rewrite app_nil_r.
    + intros (out' & -> & ->%Forall2_nil_inv_l). rewrite app_nil_r. by eexists.
  - assert (Hk : k ∉ acc.*1).
    { simpl in Hnd. apply NoDup_app in Hnd as (_ & Hd & _).
      intros Hin. apply (Hd k Hin). left. }
    assert (Hnd' : ∀ x, NoDup ((acc ++ [(k, x)]).*1 ++ items.*1)).
    { intros x. by rewrite fmap_app, <- app_assoc. }
    simpl transform_levels. rewrite snd_bind.
    destruct v as [|xdata [|xdata' v]]; cbn [length Nat.eqb assert ret raise snd].
    1,3: split; [by intros [? ?]|];
         intros (out' & _ & (o & out'' & Ho & _ & _)%Forall2_cons_inv_l);
         by destruct Ho as (_ & ? & ? & ? & ? & ? & _).
    rewrite snd_bind; cbn [ret snd]. rewrite snd_bind.
    destruct (level_transformation _get_scale k xdata t).2 as [composed|e] eqn:Hc.
    2:{ split; [by intros [? ?]|].
        intros (out' & _ & (o & out'' & Ho & _ & _)%Forall2_cons_inv_l).
        destruct Ho as (_ & x & c & d & r & [= <-] & Hcomp & _).
        apply level_transformation_snd in Hcomp. simpl in *. congruence. }
    rewrite snd_bind.
    destruct (_transform_raster _ _ composed kw).2 as [[dask rts]|e] eqn:Hr.
    2:{ split; [by intros [? ?]|].
        intros (out' & _ & (o & out'' & Ho & _ & _)%Forall2_cons_inv_l).
        destruct Ho as (_ & x & c & d & r & [= <-] & Hcomp & Hrun & _).
        apply level_transformation_snd in Hcomp. simpl in *. congruence. }
    rewrite dict_set_fresh by done. rewrite IH by apply Hnd'.
    split.
    + intros (out'' & -> & HF). eexists (_ :: out'').
      split; [by rewrite <- app_assoc|]. constructor; [|done].
      split; [done|]. exists xdata, composed, dask, rts.
      split; [done|]. split; [by apply level_transformation_snd|]. done.
    + intros (out' & -> & (o & out'' & Ho & HF & ->)%Forall2_cons_inv_l).
      destruct o as [k' x'].
      destruct Ho as (Hk' & x & c & d & r & [= <-] & Hcomp & Hrun & Hx').
      simpl in *. subst k' x'.
      apply level_transformation_snd in Hcomp.
      assert (c = composed) as -> by congruence.
      assert (d = dask) as -> by congruence.
      exists out''. split; [by rewrite <- app_assoc|done].
Qed.

(** C6. The loop over the levels of a pyramid (distinct level names) returns
    exactly when every level holds one data variable and is resampled by
    [_transform_raster], and then the result holds, under each level name and
    in the same order, the resampled level: the level named ["scale0"] is
    resampled with the resolved transformation itself, every other level
    with [Sequence [scale; transformation; scale.inverse()]], where [scale]
    is what [_get_scale] reads off the registry of that level.  In the
    order of application this is the level's scale, then the transformation,
    then the inverse of the scale. *)
Theorem multiscale_levels_are_transformed_rescaled
    (_get_scale : Registry → M BaseTransformation)
    (transformation : BaseTransformation) (kwargs : Kwargs)
    (items : list (string * list DataArray)) (out : list (string * DataArray)) :
  NoDup items.*1 →
  (∃ rt, (transform_levels _get_scale transformation kwargs items [] None).2
         = Ok (out, rt)) ↔
  Forall2
    (fun item out_item =>
       out_item.1 = item.1 ∧
       ∃ xdata composed dask rt,
         item.2 = [xdata] ∧
         (if String.eqb item.1 "scale0" then composed = transformation
          else ∃ scale scale_inverse,
              (_get_scale (xr_transform xdata)).2 = Ok scale ∧
              (inverse scale).2 = Ok scale_inverse ∧
              composed = Sequence [scale; transformation; scale_inverse]) ∧
         (_transform_raster (xr_data xdata) (xr_dims xdata) composed kwargs).2
         = Ok (dask, rt) ∧
         out_item.2 = {| xr_data := dask; xr_dims := xr_dims xdata;
                         xr_name := xr_name xdata; xr_c_coords := None;
                         xr_transform := ∅ |})
    items out.
Proof.
  intros Hnd. rewrite (transform_levels_spec _ _ _ _ [] None out) by done.
  split.
  - by intros (out' & -> & HF).
  - intros HF. by exists out.
Qed.

Lemma multiscale_levels_are_transformed_rescaled_witness :
  ∃ out,
    Forall2
      (level_transformed (fun _ => ret (Scale [2; 2] ["y"; "x"]))
         (Scale [3; 3] ["y"; "x"]) {| kw_prefilter := None; kw_order := None |})
      [("scale0", [{| xr_data := source_array "scale0" [4; 4]%Z;
                      xr_dims := ["y"; "x"]; xr_name := "image";
                      xr_c_coords := None; xr_transform := ∅ |}]);
       ("scale1", [{| xr_data := source_array "scale1" [2; 2]%Z;
                      xr_dims := ["y"; "x"]; xr_name := "image";
                      xr_c_coords := None; xr_transform := ∅ |}])]
      out ∧
    out.*1 = ["scale0"; "scale1"].
Proof.
  eexists. split.
  - refine (proj1 (multiscale_levels_are_transformed_rescaled
                     (fun _ => ret (Scale [2; 2] ["y"; "x"]))
                     (Scale [3; 3] ["y"; "x"])
                     {| kw_prefilter := None; kw_order := None |} _ _ _) _).
    + apply (bool_decide_unpack _). vm_compute. exact I.
    + eexists. vm_compute. reflexivity.
  - reflexivity.
Defined.

(** ** Shape of the materialised matrix *)

Lemma length_affine_rows axes lin off :
  length (affine_rows axes lin off) = S (length axes).
Proof. unfold affine_rows. rewrite length_app, length_map. simpl. lia. Qed.

Lemma length_mat_mul a b : length (mat_mul a b) = length a.
Proof. unfold mat_mul. by rewrite length_map. Qed.

Lemma length_identity_matrix n : length (identity_matrix n) = n.
Proof. unfold identity_matrix. by rewrite length_map, length_seq. Qed.

Lemma check_axes_snd taxes axes :
  (check_axes taxes axes).2 = Ok tt ∨ (check_axes taxes axes).2 = Raise AxisMismatchError.
Proof. unfold check_axes. destruct (forallb _ _); [by left|by right]. Qed.

Lemma to_affine_matrix_length :
  ∀ t axes m, (to_affine_matrix t axes).2 = Ok m → length m = S (length axes).
Proof.
  fix IH 1. intros t axes m.
  destruct t as [|v taxes|v taxes|mm ia oa|ts]; cbn [to_affine_matrix].
  - intros [= <-]. apply length_affine_rows.
  - rewrite snd_bind. destruct (check_axes_snd taxes axes) as [-> | ->]; [|done].
    intros [= <-]. apply length_affine_rows.
  - rewrite snd_bind. destruct (check_axes_snd taxes axes) as [-> | ->]; [|done].
    intros [= <-]. apply length_affine_rows.
  - rewrite snd_bind. destruct (check_axes_snd ia axes) as [-> | ->]; [|done].
    rewrite snd_bind. destruct (check_axes_snd oa axes) as [-> | ->]; [|done].
    intros [= <-]. apply length_affine_rows.
  - generalize (length_identity_matrix (S (length axes))).
    generalize (identity_matrix (S (length axes))) as composed.
    induction ts as [|t ts IHts]; intros composed Hlen.
    + by intros [= <-].
    + rewrite snd_bind.
      destruct (to_affine_matrix t axes).2 as [mt|e] eqn:Hmt; [|done].
      apply IHts. rewrite length_mat_mul. by apply (IH t axes).
Qed.
(** ** Point tables *)

Lemma dict_get_app {A} k (d1 d2 : list (string * A)) :
  dict_get k (d1 ++ d2)
  = match dict_get k d1 with Some v => Some v | None => dict_get k d2 end.
Proof.
  unfold dict_get. induction d1 as [|[k' v'] d1 IH]; simpl; [done|].
  by destruct (String.eqb k k').
Qed.

Lemma dict_get_None {A} k (d : list (string * A)) :
  k ∉ d.*1 → dict_get k d = None.
Proof.
  unfold dict_get. induction d as [|[k' v'] d IH]; simpl; [done|].
  intros [Hne Hk]%not_elem_of_cons.
  destruct (String.eqb_spec k k'); [done|]. by apply IH.
Qed.

Lemma dict_get_filter {A} (P : string → Prop) `{∀ k, Decision (P k)}
    k (d : list (string * A)) :
  P k → dict_get k (filter (fun kv => P kv.1) d) = dict_get k d.
Proof.
  intros HP. unfold dict_get. induction d as [|[k' v'] d IH]; simpl; [done|].
  rewrite filter_cons. simpl. destruct (String.eqb_spec k k') as [<-|Hne].
  - rewrite decide_True by done. simpl. by rewrite String.eqb_refl.
  - destruct (decide (P k')); [|done]. simpl.
    by destruct (String.eqb_spec k k').
Qed.

Lemma dict_get_map_fresh {A} (f : string → A) k (l : list string) :
  k ∈ l → dict_get k (map (fun a => (a, f a)) l) = Some (f k).
Proof.
  unfold dict_get. induction l as [|a l IH]; simpl; [by intros ?%elem_of_nil|].
  intros [->|Hin]%elem_of_cons.
  - by rewrite String.eqb_refl.
  - destruct (String.eqb_spec k a) as [->|]; [done|]. by apply IH.
Qed.

Lemma fold_dict_set_fresh {A} (f : string → A) (l : list string)
    (d : list (string * A)) :
  NoDup l → (∀ a, a ∈ l → a ∉ d.*1) →
  fold_left (fun d a => dict_set a (f a) d) l d = d ++ map (fun a => (a, f a)) l.
Proof.
  revert d. induction l as [|a l IH]; intros d Hnd Hd; simpl.
  - by rewrite app_nil_r.
  - apply NoDup_cons in Hnd as [Ha Hnd].
    rewrite dict_set_fresh by (apply Hd; left).
    rewrite IH; [by rewrite <- app_assoc|done|].
    intros b Hb. rewrite fmap_app. simpl. rewrite elem_of_app, list_elem_of_singleton.
    intros [Hin| ->]; [|done]. by apply (Hd b); [right|].
Qed.

Lemma mapM_columns (columns : list (string * list Q)) (axes : list string) :
  Forall (fun a => is_Some (dict_get a columns)) axes →
  (mapM (fun ax => match dict_get ax columns with
                   | Some column => ret column
                   | None => raise KeyError
                   end) axes : M _)
  = ret (map (fun a => default [] (dict_get a columns)) axes).
Proof.
  induction 1 as [|a axes [c Hc] _ IH]; [done|].
  cbn [mapM]. rewrite Hc, bind_ret, IH, bind_ret. simpl. by rewrite Hc.
Qed.

Lemma select_dim_point (dim : list string) (ax : string) (j : nat) (point : list Q) :
  NoDup dim → dim !! j = Some ax → length point = length dim →
  map snd (filter (fun aq => String.eqb aq.1 ax = true) (zip dim point))
  = [nth j point 0].
Proof.
  revert j point. induction dim as [|a dim IH]; intros j [|q point] Hnd Hj Hlen;
    try done.
  apply NoDup_cons in Hnd as [Ha Hnd]. simpl in Hlen.
  cbn [zip zip_with]. rewrite filter_cons. cbn [fst].
  destruct j as [|j]; simpl in Hj.
  - injection Hj as ->. rewrite decide_True by apply String.eqb_refl.
    cbn [map snd nth]. f_equal.
    assert (Hnone : ∀ p, filter (fun aq : string * Q => String.eqb aq.1 ax = true)
                           (zip dim p) = []).
    { clear -Ha. induction dim as [|b dim IH]; intros [|y p]; try done.
      apply not_elem_of_cons in Ha as [Hne Ha].
      cbn [zip zip_with]. rewrite filter_cons. cbn [fst].
      rewrite decide_False; [by apply IH|].
      intros ?%String.eqb_eq. by subst. }
    by rewrite Hnone.
  - rewrite decide_False.
    + cbn [nth]. apply IH; [done|done|lia].
    + intros ->%String.eqb_eq. apply Ha. by eapply list_elem_of_lookup_2.
Qed.

(** What the adjuster leaves in the registry of a points or shapes element
    that carries the placeholder, as the dispatcher calls it (no raster
    translation, no target coordinate system). *)
Lemma adjust_transformations_tabular D element old t mp :
  element = DaskDataFrame ∨ element = GeoDataFrame →
  _adjust_transformations D element {[D := Identity]} old t None mp None
  = if mp
    then tinv ← inverse t; ret ((λ old_t, Sequence [tinv; old_t]) <$> old)
    else ret {[D := Identity]}.
Proof.
  intros [-> | ->]; unfold _adjust_transformations, get_all_transformations,
    remove_all_transformations; destruct mp; simpl.
  all: rewrite ?bind_ret; simpl.
  all: try (destruct (inverse t) as [ws [tinv|e]]; simpl; [|done]).
  all: rewrite ?map_size_singleton, ?lookup_singleton_eq; simpl.
  all: rewrite ?map_fold_prepend; try reflexivity.
  all: by rewrite !app_nil_r.
Qed.

Lemma fst_filter_keys {A} (P : string → Prop) `{∀ k, Decision (P k)}
    (d : list (string * A)) :
  (filter (fun kv => P kv.1) d).*1 = filter P d.*1.
Proof.
  induction d as [|[k v] d IH]; [done|].
  rewrite fmap_cons, !filter_cons. cbn [fst].
  destruct (decide (P k)); [rewrite fmap_cons; cbn [fst]|]; by rewrite IH.
Qed.

Lemma fst_filter_not_axes {A} (axes : list string) (d : list (string * A)) :
  (filter (fun kv => ¬ kv.1 ∈ axes) d).*1 = filter (fun c => c ∉ axes) d.*1.
Proof. exact (fst_filter_keys (fun c => c ∉ axes) d). Qed.

Lemma dict_get_filter_not_axes {A} (axes : list string) k (d : list (string * A)) :
  k ∉ axes → dict_get k (filter (fun kv => ¬ kv.1 ∈ axes) d) = dict_get k d.
Proof. exact (dict_get_filter (fun c => c ∉ axes) k d). Qed.

Lemma fst_map_pair {A} (f : string → A) (l : list string) :
  (map (fun a => (a, f a)) l).*1 = l.
Proof. induction l as [|a l IH]; [done|]. cbn [map]. by rewrite fmap_cons, IH. Qed.

Lemma length_mat_vec m v : length (mat_vec m v) = length m.
Proof. unfold mat_vec. by rewrite length_map. Qed.

Lemma select_dim_column (dim : list string) (ax : string) (j : nat)
    (m : matrix) (points : list (list Q)) :
  NoDup dim → dim !! j = Some ax → length m = S (length dim) →
  select_dim dim ax
    (map (fun point => take (length dim) (mat_vec m (point ++ [1]))) points)
  = map (fun point => nth j (mat_vec m (point ++ [1])) 0) points.
Proof.
  intros Hnd Hj Hm. unfold select_dim. rewrite map_map.
  induction points as [|p points IH]; [done|].
  cbn [map concat]. rewrite IH.
  rewrite (select_dim_point dim ax j) by
    (try done; rewrite length_take, length_mat_vec; lia).
  simpl. f_equal. rewrite nth_firstn.
  apply lookup_lt_Some in Hj. by apply Nat.ltb_lt in Hj as ->.
Qed.

(** C9. A point table whose axes are distinct, not empty and all name
    columns of the table, with a resolved transformation that materialises
    over the axes (and inverts, when positioning is maintained): the points
    dispatcher returns a table of the same number of rows in which the column
    of the [j]-th axis holds, for every row [i], coordinate [j] of the product
    of the transformation's matrix (input and output axes both the axes of the
    table) with the homogeneous coordinates of point [i]; every other column
    reads as before.  The columns are the former non-coordinate columns, in
    their order, followed by the coordinate columns in the order of the
    axes. *)
Theorem transform_points_replaces_coordinate_columns
    (D : string) (data : DataFrame)
    (transformation : option BaseTransformation) (maintain_positioning : bool)
    (to_coordinate_system : option string)
    (t : BaseTransformation) (cs : option string) (m : matrix) :
  let axes := df_axes data in
  let point i := map (fun a => nth i (default [] (dict_get a (df_columns data))) 0) axes in
  (_validate_target_coordinate_systems D (df_transform data) transformation
     maintain_positioning to_coordinate_system).2 = Ok (t, cs) →
  (to_affine_matrix t axes).2 = Ok m →
  (maintain_positioning = true → succeeds (inverse t)) →
  axes ≠ [] → NoDup axes →
  Forall (fun a => is_Some (dict_get a (df_columns data))) axes →
  ∃ out,
    (transform_points D data transformation maintain_positioning
       to_coordinate_system).2 = Ok out ∧
    df_len out = df_len data ∧
    (df_columns out).*1
    = filter (fun c => c ∉ axes) (df_columns data).*1 ++ axes ∧
    (∀ j a, axes !! j = Some a →
       dict_get a (df_columns out)
       = Some (map (fun i => nth j (mat_vec m (point i ++ [1])) 0)
                 (seq 0 (df_len data)))) ∧
    (∀ c, c ∉ axes →
       dict_get c (df_columns out) = dict_get c (df_columns data)).
Proof.
  intros axes point Hval Hm Hinv Hne Hnd Hcols.
  unfold transform_points. fold axes.
  rewrite snd_bind, Hval. cbn beta iota.
  rewrite snd_bind, mapM_columns by done. cbn [ret snd].
  rewrite snd_bind.
  assert ((if map (fun a => default [] (dict_get a (df_columns data))) axes is []
           then raise ValueError else ret ()) = ret tt) as ->
    by (by destruct axes).
  cbn [ret snd]. rewrite snd_bind.
  unfold _transform_coordinates. rewrite snd_bind, Hm. cbn [ret snd].
  rewrite snd_bind, adjust_transformations_tabular by (by left).
  match goal with
  | |- context [match (?x).2 with Ok _ => _ | Raise _ => _ end] =>
      assert (∃ reg : Registry, x.2 = Ok reg) as [reg ->]
  end.
  { destruct maintain_positioning; [|by eexists].
    destruct (Hinv eq_refl) as (ws & tinv & ->). rewrite snd_bind. by eexists. }
  cbn [ret snd].
  eexists. split; [reflexivity|]. cbn [df_len df_columns].
  split; [done|].
  pose proof (to_affine_matrix_length _ _ _ Hm) as Hlen.
  rewrite fold_dict_set_fresh; [|done|].
  2:{ intros a Ha. rewrite fst_filter_not_axes.
      rewrite list_elem_of_filter. by intros [? _]. }
  split; [|split].
  - rewrite fmap_app, fst_filter_not_axes. by rewrite fst_map_pair.
  - intros j a Hj. rewrite dict_get_app, dict_get_None.
    2:{ rewrite fst_filter_not_axes, list_elem_of_filter.
        intros [Hn _]. apply Hn. by eapply list_elem_of_lookup_2. }
    rewrite (dict_get_map_fresh (fun a => select_dim axes a _))
      by (by eapply list_elem_of_lookup_2).
    f_equal. rewrite (select_dim_column axes a j m) by done.
    rewrite map_map. apply map_ext. intros i. subst point. cbv beta.
    by rewrite map_map.
  - intros c Hc. rewrite dict_get_app.
    rewrite dict_get_filter_not_axes by done.
    destruct (dict_get c (df_columns data)); [done|].
    apply dict_get_None. by rewrite fst_map_pair.
Qed.

Lemma transform_points_replaces_coordinate_columns_witness :
  ∃ out,
    (transform_points "global"
       {| df_len := 2;
          df_columns := [("x", [1; 2]); ("gene", [7; 8]); ("y", [3; 4])];
          df_axes := ["x"; "y"];
          df_transform := {["global" := Translation [10; 20] ["x"; "y"]]} |}
       None false (Some "global")).2 = Ok out ∧
    df_columns out = [("gene", [7; 8]); ("x", [11; 12]); ("y", [23; 24])].
Proof.
  edestruct (transform_points_replaces_coordinate_columns "global"
               {| df_len := 2;
                  df_columns := [("x", [1; 2]); ("gene", [7; 8]); ("y", [3; 4])];
                  df_axes := ["x"; "y"];
                  df_transform := {["global" := Translation [10; 20] ["x"; "y"]]} |}
               None false (Some "global"))
    as (out & Hrun & _);
    [vm_compute; reflexivity|vm_compute; reflexivity|discriminate|discriminate
    |apply (bool_decide_unpack _); vm_compute; exact I
    |repeat constructor; eexists; reflexivity|].
  exists out. split; [exact Hrun|].
  vm_compute in Hrun. injection Hrun as <-. reflexivity.
Defined.

(** ** Shapes *)

(** C8, as stated, fails on a collection whose first geometry is a polygon
    and whose second is a point with a radius: the radii are left as they
    were, although the scale by two has both eigenvalue moduli equal to 2. *)
Lemma radius_is_not_scaled_when_any_point :
  ¬ radius_scaled_when_any_point "global" diagonal_moduli
      {| gdf_geometry := [Polygon [[[0; 0]; [1; 0]; [1; 1]; [0; 0]]]; Point [1; 1]];
         gdf_columns := [("radius", [5; 5])];
         gdf_axes := ["x"; "y"];
         gdf_transform := {["global" := Scale [2; 2] ["x"; "y"]]} |}
      None false (Some "global").
Proof.
  intros H.
  eassert (E : transform_shapes "global" diagonal_moduli
                 {| gdf_geometry :=
                      [Polygon [[[0; 0]; [1; 0]; [1; 1]; [0; 0]]]; Point [1; 1]];
                    gdf_columns := [("radius", [5; 5])];
                    gdf_axes := ["x"; "y"];
                    gdf_transform := {["global" := Scale [2; 2] ["x"; "y"]]} |}
                 None false (Some "global") = (_, Ok _))
    by (vm_compute; reflexivity).
  specialize (H _ _ (Scale [2; 2] ["x"; "y"]) (Some "global") _ [5; 5] E
                eq_refl ltac:(vm_compute; reflexivity)
                ltac:(right; left; reflexivity) eq_refl).
  vm_compute in H. discriminate H.
Qed.

(** ** The log and the shape of materialisation and inversion *)

Lemma fst_bind {A B} (m : M A) (f : A → M B) :
  (m ≫= f).1 = match m.2 with Ok a => m.1 ++ (f a).1 | Raise e => m.1 end.
Proof.
  destruct m as [ws [a|e]]; simpl; [|done].
  unfold mbind, M_bind, bind. by destruct (f a).
Qed.

Lemma check_axes_silent taxes axes : (check_axes taxes axes).1 = [].
Proof. unfold check_axes. by destruct (forallb _ _). Qed.

(** Materialising a transformation emits no warning. *)
Lemma to_affine_matrix_silent : ∀ t axes, (to_affine_matrix t axes).1 = [].
Proof.
  fix IH 1. intros t axes.
  destruct t as [|v taxes|v taxes|mm ia oa|ts]; cbn [to_affine_matrix].
  - done.
  - rewrite fst_bind, check_axes_silent. by destruct (check_axes _ _).2.
  - rewrite fst_bind, check_axes_silent. by destruct (check_axes _ _).2.
  - rewrite fst_bind, check_axes_silent. destruct (check_axes ia axes).2; [|done].
    rewrite fst_bind, check_axes_silent. by destruct (check_axes _ _).2.
  - generalize (identity_matrix (S (length axes))) as composed.
    induction ts as [|t ts IHts]; intros composed; [done|].
    rewrite fst_bind, IH. destruct (to_affine_matrix t axes).2; [|done].
    apply IHts.
Qed.

(** Inverting a transformation emits no warning. *)
Lemma inverse_silent : ∀ t, (inverse t).1 = [].
Proof.
  fix IH 1. intros t.
  destruct t as [|v taxes|v taxes|mm ia oa|ts]; cbn [inverse].
  - done.
  - done.
  - by destruct (existsb _ _).
  - by destruct (mat_inverse mm).
  - rewrite fst_bind.
    match goal with |- context [(?g ts).2] => set (inverses := g) end.
    assert (Hs : (inverses ts).1 = []).
    { induction ts as [|t ts IHts]; [done|].
      cbn [inverses]. fold inverses. rewrite fst_bind, IHts.
      destruct (inverses ts).2; [|done].
      rewrite fst_bind, IH. by destruct (inverse t).2. }
    rewrite Hs. by destruct (inverses ts).2.
Qed.

Lemma M_eta {A} (m : M A) : m = (m.1, m.2).
Proof. by destruct m. Qed.

Lemma to_affine_matrix_ret t axes m :
  (to_affine_matrix t axes).2 = Ok m → to_affine_matrix t axes = ret m.
Proof.
  intros H. rewrite (M_eta (to_affine_matrix t axes)).
  by rewrite to_affine_matrix_silent, H.
Qed.

Lemma inverse_ret t tinv : (inverse t).2 = Ok tinv → inverse t = ret tinv.
Proof.
  intros H. rewrite (M_eta (inverse t)). by rewrite inverse_silent, H.
Qed.

Lemma length_affine_row axes lin off :
  Forall (fun row => length row = S (length axes)) (affine_rows axes lin off).
Proof.
  unfold affine_rows. apply Forall_app. split.
  - apply Forall_map, Forall_forall. intros a _.
    rewrite length_app, length_map. simpl. lia.
  - constructor; [|done]. rewrite length_app, length_map. simpl. lia.
Qed.

Lemma n_cols_Forall n m :
  m ≠ [] → Forall (fun row => length row = n) m → n_cols m = n.
Proof. destruct m; [done|]. intros _ H. by inversion H. Qed.

Lemma length_mat_mul_row a b :
  Forall (fun row => length row = n_cols b) (mat_mul a b).
Proof.
  unfold mat_mul. apply Forall_map, Forall_forall. intros row _.
  by rewrite length_map, length_seq.
Qed.

(** The matrix of a transformation over [n] axes is square of size [n + 1]. *)
Lemma to_affine_matrix_square :
  ∀ t axes m, (to_affine_matrix t axes).2 = Ok m →
    length m = S (length axes) ∧
    Forall (fun row => length row = S (length axes)) m.
Proof.
  intros t axes m Hm. split; [by eapply to_affine_matrix_length|].
  revert t m Hm. fix IH 1. intros t m.
  destruct t as [|v taxes|v taxes|mm ia oa|ts]; cbn [to_affine_matrix].
  - intros [= <-]. apply length_affine_row.
  - rewrite snd_bind. destruct (check_axes_snd taxes axes) as [-> | ->]; [|done].
    intros [= <-]. apply length_affine_row.
  - rewrite snd_bind. destruct (check_axes_snd taxes axes) as [-> | ->]; [|done].
    intros [= <-]. apply length_affine_row.
  - rewrite snd_bind. destruct (check_axes_snd ia axes) as [-> | ->]; [|done].
    rewrite snd_bind. destruct (check_axes_snd oa axes) as [-> | ->]; [|done].
    intros [= <-]. apply length_affine_row.
  - assert (Hid : identity_matrix (S (length axes)) ≠ [] ∧
        Forall (fun row => length row = S (length axes))
          (identity_matrix (S (length axes)))).
    { split; [done|]. unfold identity_matrix. apply Forall_map, Forall_forall.
      intros i _. unfold unit_row. by rewrite length_map, length_seq. }
    revert Hid. generalize (identity_matrix (S (length axes))) as composed.
    induction ts as [|t ts IHts]; intros composed [Hne Hw].
    + by intros [= <-].
    + rewrite snd_bind.
      destruct (to_affine_matrix t axes).2 as [mt|e] eqn:Hmt; [|done].
      apply IHts. pose proof (to_affine_matrix_length _ _ _ Hmt) as Hl.
      split.
      * destruct mt; [done|]. done.
      * rewrite <- (n_cols_Forall _ composed Hne Hw).
        apply length_mat_mul_row.
Qed.

Lemma bind_Ok {A B} ws (a : A) (f : A → M B) :
  ((ws, Ok a) ≫= f) = (ws ++ (f a).1, (f a).2).
Proof. unfold mbind, M_bind, bind. by destruct (f a). Qed.

Lemma dict_get_set_eq {A} k (v : A) (d : list (string * A)) :
  dict_get k (dict_set k v d) = Some v.
Proof.
  unfold dict_get. induction d as [|[k' v'] d IH]; simpl.
  - by rewrite String.eqb_refl.
  - destruct (String.eqb_spec k k') as [<-|Hne]; simpl.
    + by rewrite String.eqb_refl.
    + destruct (String.eqb_spec k k'); [done|]. apply IH.
Qed.

Lemma dict_get_set_ne {A} k k' (v : A) (d : list (string * A)) :
  k ≠ k' → dict_get k (dict_set k' v d) = dict_get k d.
Proof.
  intros Hne. unfold dict_get. induction d as [|[k0 v0] d IH]; simpl.
  - by destruct (String.eqb_spec k k').
  - destruct (String.eqb_spec k' k0) as [->|Hne0]; simpl.
    + by destruct (String.eqb_spec k k0).
    + destruct (String.eqb_spec k k0); [done|]. apply IH.
Qed.

Lemma mapM_geometry_affine_transform coefficients n geometry :
  (length coefficients = 6%nat ∧ n = 2%nat) ∨
  (length coefficients = 12%nat ∧ n = 3%nat) →
  (mapM (geometry_affine_transform coefficients) geometry : M _)
  = ret (map (geometry_map (affine_vertex n coefficients)) geometry).
Proof.
  intros Hn. induction geometry as [|g geometry IH]; [done|].
  cbn [mapM]. rewrite IH. unfold geometry_affine_transform at 1.
  destruct Hn as [[-> ->]|[-> ->]]; simpl; by rewrite ?bind_ret.
Qed.

(** the coefficients handed to [affine_transform] are 6 for two axes and 12
    for three *)
Lemma shapely_notation_length ndim t m :
  (2 <= ndim)%nat →
  (to_affine_matrix t (take ndim ["x"; "y"; "z"])).2 = Ok m →
  let coefficients := concat (linear_block m) ++ offset_column m in
  (length coefficients = 6%nat ∧ ndim = 2%nat) ∨
  (length coefficients = 12%nat ∧ (3 <= ndim)%nat).
Proof.
  intros Hnd Hm.
  destruct ndim as [|[|[|ndim]]]; [lia|lia| |];
    [|replace (take (S (S (S ndim))) ["x"; "y"; "z"]) with ["x"; "y"; "z"] in Hm
        by (by destruct ndim)];
    apply to_affine_matrix_square in Hm as [Hlen Hrows];
    simpl in Hlen, Hrows.
  - left. split; [|done].
    destruct m as [|r1 [|r2 [|r3 [|]]]]; try discriminate Hlen.
    repeat match goal with
    | H : Forall _ (_ :: _) |- _ => apply Forall_cons in H as [? H]
    end.
    repeat match goal with
    | H : length ?r = _ |- _ =>
        is_var r; destruct r as [|? r]; simpl in H; try discriminate H
    | H : S _ = S _ |- _ => apply Nat.succ_inj in H
    end.
    reflexivity.
  - right. split; [|lia].
    destruct m as [|r1 [|r2 [|r3 [|r4 [|]]]]]; try discriminate Hlen.
    repeat match goal with
    | H : Forall _ (_ :: _) |- _ => apply Forall_cons in H as [? H]
    end.
    repeat match goal with
    | H : length ?r = _ |- _ =>
        is_var r; destruct r as [|? r]; simpl in H; try discriminate H
    | H : S _ = S _ |- _ => apply Nat.succ_inj in H
    end.
    reflexivity.
Qed.
Lemma is_Point_geometry_map f g : is_Point (geometry_map f g) = is_Point g.
Proof. by destruct g. Qed.

(** C8 (amended). For a shapes element with at least two axes and at least
    one geometry, whose resolved transformation materialises over the first
    axes of (x, y, z) (and inverts, when positioning is maintained): the
    shapes dispatcher returns, and what it does to the radii is decided by
    the first geometry alone.  If the first geometry is a point and there is
    a radius column, every radius is multiplied by the first eigenvalue
    modulus of the linear block when all moduli are close to it, and
    otherwise by the mean of the moduli, in which case (and only then) the
    warning about the transformation not being isotropic is logged.  If the
    first geometry is not a point, or there is no radius column, the columns
    are returned untouched, whatever the other geometries are. *)
Theorem transform_shapes_scales_radius
    (D : string) (eigenvalue_moduli : matrix → list Q)
    (data : GeoDataFrameData) (transformation : option BaseTransformation)
    (maintain_positioning : bool) (to_coordinate_system : option string)
    (ws_resolve : list Warning) (t : BaseTransformation) (cs : option string)
    (m : matrix) (g : Geometry) (gs : list Geometry) (modules : list Q)
    (modules_0 : Q) :
  _validate_target_coordinate_systems D (gdf_transform data) transformation
    maintain_positioning to_coordinate_system = (ws_resolve, Ok (t, cs)) →
  (to_affine_matrix t (take (length (gdf_axes data)) ["x"; "y"; "z"])).2 = Ok m →
  (2 <= length (gdf_axes data))%nat →
  gdf_geometry data = g :: gs →
  eigenvalue_moduli (linear_block m) = modules →
  modules !! 0%nat = Some modules_0 →
  (maintain_positioning = true → succeeds (inverse t)) →
  ∃ ws out,
    transform_shapes D eigenvalue_moduli data transformation
      maintain_positioning to_coordinate_system = (ws, Ok out) ∧
    match is_Point g, dict_get "radius" (gdf_columns data) with
    | true, Some old_radius =>
        if np_allclose modules modules_0
        then ws = ws_resolve ∧
             dict_get "radius" (gdf_columns out)
             = Some (map (fun r => r * modules_0) old_radius)
        else ws = ws_resolve ++ [LoggerWarning_not_isotropic] ∧
             dict_get "radius" (gdf_columns out)
             = Some (map (fun r => r * np_mean modules) old_radius)
    | _, _ => ws = ws_resolve ∧ gdf_columns out = gdf_columns data
    end.
Proof.
  intros Hval Hm Hndim Hgeom Hmod Hmod0 Hinv.
  pose proof (shapely_notation_length _ _ _ Hndim Hm) as Hcoef. cbv zeta in Hcoef.
  apply to_affine_matrix_ret in Hm.
  assert (Hadj : ∃ reg,
    _adjust_transformations D GeoDataFrame {[D := Identity]}
      (get_all_transformations (gdf_transform data)) t None
      maintain_positioning None = ret reg).
  { rewrite adjust_transformations_tabular by (by right).
    destruct maintain_positioning; [|by eexists].
    destruct (Hinv eq_refl) as (ws & tinv & Htinv).
    assert (Hr : inverse t = ret tinv).
    { apply inverse_ret. by rewrite Htinv. }
    rewrite Hr, bind_ret. by eexists. }
  destruct Hadj as [reg Hadj].
  unfold transform_shapes. rewrite Hval, bind_Ok. cbn beta iota.
  rewrite Hm, bind_ret.
  set (n := if decide (length (gdf_axes data) = 2%nat) then 2%nat else 3%nat).
  rewrite (mapM_geometry_affine_transform _ n), bind_ret
    by (subst n; destruct Hcoef as [[? ->]|[? ?]];
        [by left|right; by rewrite decide_False by lia]).
  rewrite Hgeom. cbn [map]. rewrite bind_ret.
  rewrite is_Point_geometry_map, Hmod.
  destruct modules as [|x modules']; [done|]. injection Hmod0 as ->.
  destruct (is_Point g), (dict_get "radius" (gdf_columns data)) as [old_radius|];
    [rewrite bind_ret;
     destruct (np_allclose (modules_0 :: modules') modules_0); cbn [negb]|..];
    unfold warn;
    repeat (first [rewrite bind_ret | rewrite bind_Ok | rewrite Hadj];
            cbn [fst snd ret]);
    eexists _, _; (split; [reflexivity|]); rewrite ?app_nil_r;
    (split; [done|]); cbn [gdf_columns]; try done; apply dict_get_set_eq.
Qed.

Lemma transform_shapes_scales_radius_witness :
  ∃ ws out,
    transform_shapes "global" diagonal_moduli
      {| gdf_geometry := [Point [1; 1]; Point [3; 4]];
         gdf_columns := [("radius", [5; 7])];
         gdf_axes := ["x"; "y"];
         gdf_transform := {["global" := Scale [2; 2] ["x"; "y"]]} |}
      None false (Some "global") = (ws, Ok out) ∧
    gdf_columns out = [("radius", [10; 14])].
Proof.
  edestruct (transform_shapes_scales_radius "global" diagonal_moduli
               {| gdf_geometry := [Point [1; 1]; Point [3; 4]];
                  gdf_columns := [("radius", [5; 7])];
                  gdf_axes := ["x"; "y"];
                  gdf_transform := {["global" := Scale [2; 2] ["x"; "y"]]} |}
               None false (Some "global"))
    as (ws & out & Hrun & _);
    [vm_compute; reflexivity|vm_compute; reflexivity|simpl; lia|reflexivity
    |vm_compute; reflexivity|reflexivity|discriminate|].
  exists ws, out. split; [exact Hrun|].
  vm_compute in Hrun. injection Hrun as _ <-. reflexivity.
Defined.

(** ** The polygon string codec *)

(** C10. The round trip breaks on whole numbers.  numpy prints the array
    [[1.0, 2.0]] as [array([[1., 2.]])], with nothing after the decimal
    point; [tensor_to_string] turns this into ["[[1.,2.]]"] and accepts it
    (the text evaluates to the array), but [string_to_tensor] wants at least
    one digit after every point and returns [None] for that very text, on
    which [Polygons.to_zarr] then fails with an [AttributeError]. *)
Theorem string_to_tensor_rejects_tensor_to_string
    (numpy_repr : list (list Q) → string) :
  numpy_repr [[1; 2]] = "array([[1., 2.]])" →
  tensor_to_string numpy_repr [[1; 2]] = ret "[[1.,2.]]" ∧
  string_to_tensor "[[1.,2.]]" = ret None ∧
  polygons_to_zarr_axes ["[[1.,2.]]"] = raise AttributeError.
Proof.
  intros Hrepr. unfold tensor_to_string. rewrite Hrepr.
  split; [|split]; vm_compute; reflexivity.
Qed.

Lemma string_to_tensor_rejects_tensor_to_string_witness :
  tensor_to_string (fun _ => "array([[1., 2.]])") [[1; 2]] = ret "[[1.,2.]]" ∧
  string_to_tensor "[[1.,2.]]" = ret None ∧
  polygons_to_zarr_axes ["[[1.,2.]]"] = raise AttributeError.
Proof.
  apply (string_to_tensor_rejects_tensor_to_string
           (fun _ => "array([[1., 2.]])")).
  reflexivity.
Defined.

(** * Further properties *)

(** ** The resolver *)

Lemma list_eqb_refl {A} (eqb : A → A → bool) (l : list A) :
  Forall (fun x => eqb x x = true) l → list_eqb eqb l l = true.
Proof. induction 1 as [|x l Hx _ IH]; simpl; [done|]. by rewrite Hx, IH. Qed.

Lemma vector_eqb_refl v : vector_eqb v v = true.
Proof.
  apply list_eqb_refl, Forall_forall. intros x _. by apply Qeq_bool_iff.
Qed.

Lemma axes_eqb_refl l : axes_eqb l l = true.
Proof.
  apply list_eqb_refl, Forall_forall. intros x _. apply String.eqb_refl.
Qed.

Lemma matrix_eqb_refl m : matrix_eqb m m = true.
Proof.
  apply list_eqb_refl, Forall_forall. intros x _. apply vector_eqb_refl.
Qed.

Lemma transformation_eqb_refl : ∀ t, transformation_eqb t t = true.
Proof.
  fix IH 1. intros [|v ax|v ax|m i o|ts]; simpl.
  - done.
  - by rewrite vector_eqb_refl, axes_eqb_refl.
  - by rewrite vector_eqb_refl, axes_eqb_refl.
  - by rewrite matrix_eqb_refl, !axes_eqb_refl.
  - induction ts as [|t ts IHts]; [done|]. by rewrite IH, IHts.
Qed.

(** Without [maintain_positioning] the resolver only ever answers with an
    entry of the registry and its key: the transformation returned equals the
    entry under the returned name, and a name is always returned.  When only
    a target was asked for, the entry itself is returned, silently; when only
    a transformation was given, the registry is that one entry. *)
Theorem validate_without_positioning_returns_registry_entry
    (D : string) (d : Registry) (transformation : option BaseTransformation)
    (to_coordinate_system : option string) ws t cs :
  _validate_target_coordinate_systems D d transformation false
    to_coordinate_system = (ws, Ok (t, cs)) →
  ∃ k dk, cs = Some k ∧ d !! k = Some dk ∧ transformation_eqb t dk = true ∧
          (transformation = None → to_coordinate_system = Some k ∧ t = dk ∧ ws = []) ∧
          (to_coordinate_system = None → transformation = Some t ∧ d = {[k := dk]}).
Proof.
  unfold _validate_target_coordinate_systems, get_all_transformations. simpl.
  destruct transformation as [t'|], to_coordinate_system as [cs'|]; try done.
  - destruct (Nat.eqb_spec (size d) 1) as [Hsz|]; [|done].
    destruct (map_size_1_singleton d Hsz) as (k & dk & -> & ->).
    destruct (transformation_eqb t' dk) eqn:Heq; [|done].
    intros [= <- <- <-]. exists k, dk.
    rewrite lookup_singleton_eq. by repeat split.
  - destruct (d !! cs') as [dk|] eqn:Hd; [|done].
    intros [= <- <- <-]. exists cs', dk.
    repeat split; try done. apply transformation_eqb_refl.
Qed.

Lemma validate_without_positioning_returns_registry_entry_witness :
  ∃ k dk, Some "aligned" = Some k ∧
    ({["global" := Identity; "aligned" := Scale [2; 2] ["y"; "x"]]} : Registry) !! k
    = Some dk ∧ transformation_eqb (Scale [2; 2] ["y"; "x"]) dk = true.
Proof.
  destruct (validate_without_positioning_returns_registry_entry "global"
              {["global" := Identity; "aligned" := Scale [2; 2] ["y"; "x"]]}
              None (Some "aligned") [] (Scale [2; 2] ["y"; "x"]) (Some "aligned"))
    as (k & dk & Hk & Hd & Heq & _); [vm_compute; reflexivity|].
  by exists k, dk.
Defined.

(** With [maintain_positioning] exactly one of the transformation and the
    target must be given, otherwise the call ends in an [AssertionError];
    when it returns, the target it returns is always [None] (the name asked
    for is dropped), no warning is emitted, and the transformation is the one
    given or the registry entry of the name asked for. *)
Theorem validate_with_positioning
    (D : string) (d : Registry) (transformation : option BaseTransformation)
    (to_coordinate_system : option string) :
  let resolve :=
    _validate_target_coordinate_systems D d transformation true
      to_coordinate_system in
  ((is_Some transformation ↔ to_coordinate_system ≠ None) →
     resolve = raise AssertionError) ∧
  (∀ ws t cs, resolve = (ws, Ok (t, cs)) →
     cs = None ∧ ws = [] ∧
     ((transformation = Some t ∧ to_coordinate_system = None) ∨
      (transformation = None ∧ ∃ k, to_coordinate_system = Some k ∧ d !! k = Some t))).
Proof.
  intros resolve. subst resolve.
  unfold _validate_target_coordinate_systems, get_transformation, resolve_cs.
  destruct transformation as [t'|], to_coordinate_system as [cs'|]; simpl.
  - split; [done|]. done.
  - split; [intros [H _]; by destruct H|].
    intros ws t cs [= <- <- <-]. by repeat split; try left.
  - split; [intros [_ H]; by destruct H as [? ?]|].
    destruct (d !! cs') as [dk|] eqn:Hd; [|done].
    intros ws t cs [= <- <- <-]. repeat split. right. split; [done|]. by exists cs'.
  - split; [done|]. done.
Qed.

Lemma validate_with_positioning_witness :
  _validate_target_coordinate_systems "global" ∅ (Some Identity) true
    (Some "global") = raise AssertionError.
Proof.
  destruct (validate_with_positioning "global" ∅ (Some Identity)
              (Some "global")) as [H _].
  apply H. split; [done|]. intros _. by eexists.
Defined.
(** ** The adjuster *)

(** The adjuster rejects inconsistent arguments with an [AssertionError]
    before it looks at the element: a target name together with
    [maintain_positioning], a raster translation for points or shapes, no
    raster translation for a raster. *)
Theorem adjust_transformations_rejects_arguments
    (D : string) (element : ElementType) (reg old : Registry)
    (t : BaseTransformation) (rt : option BaseTransformation)
    (maintain_positioning : bool) (to_coordinate_system : option string) :
  let adjust :=
    _adjust_transformations D element reg old t rt maintain_positioning
      to_coordinate_system in
  (maintain_positioning = true → to_coordinate_system ≠ None →
     adjust = raise AssertionError) ∧
  (element = GeoDataFrame ∨ element = DaskDataFrame → rt ≠ None →
     adjust = raise AssertionError) ∧
  (element = SpatialImage ∨ element = MultiscaleSpatialImage → rt = None →
     adjust = raise AssertionError).
Proof.
  intros adjust. subst adjust. unfold _adjust_transformations.
  split; [|split].
  - intros -> Hcs. by destruct to_coordinate_system.
  - intros Hel Hrt. destruct rt as [r|]; [|done].
    by destruct Hel as [-> | ->], maintain_positioning,
      to_coordinate_system.
  - intros Hel ->.
    by destruct Hel as [-> | ->], maintain_positioning,
      to_coordinate_system.
Qed.

Lemma adjust_transformations_rejects_arguments_witness :
  _adjust_transformations "global" DaskDataFrame {["global" := Identity]} ∅
    Identity (Some (Translation [1; 1] ["x"; "y"])) false None
  = raise AssertionError.
Proof.
  destruct (adjust_transformations_rejects_arguments "global" DaskDataFrame
              {["global" := Identity]} ∅ Identity
              (Some (Translation [1; 1] ["x"; "y"])) false None) as (_ & H & _).
  apply H; [by right|done].
Defined.

(** What the adjuster leaves in the registry when positioning is not
    maintained and no target is passed on, which is how every arm of the
    dispatcher calls it. *)
Lemma adjust_transformations_without_positioning D element old t rt :
  _adjust_transformations D element {[D := Identity]} old t rt false None
  = match element, rt with
    | (SpatialImage | MultiscaleSpatialImage), Some r => ret {[D := r]}
    | (GeoDataFrame | DaskDataFrame), None => ret {[D := Identity]}
    | OtherElement, _ => raise TypeError
    | _, _ => raise AssertionError
    end.
Proof.
  unfold _adjust_transformations, get_all_transformations,
    remove_all_transformations, set_transformation, resolve_cs.
  destruct element, rt as [r|]; simpl; try done.
  all: rewrite ?bind_ret; simpl.
  all: rewrite ?map_size_singleton, ?lookup_singleton_eq; simpl.
  all: by rewrite ?bind_ret, ?insert_empty.
Qed.

Tactic Notation "step_bind" "as" simple_intropattern(pat) :=
  rewrite snd_bind;
  match goal with
  | |- context [match (?x).2 with Ok _ => _ | Raise _ => _ end] =>
      destruct x as [? [pat|?]] eqn:?; cbn [snd]; [|done]
  end.

Lemma transform_levels_keeps_raster_translation _get_scale t kw items acc r out rt :
  (transform_levels _get_scale t kw items acc (Some r)).2 = Ok (out, rt) →
  rt = Some r.
Proof.
  revert acc. induction items as [|[k v] items IH]; intros acc.
  - by intros [= _ <-].
  - cbn [transform_levels]. step_bind as ?. step_bind as xdata.
    step_bind as composed. step_bind as [dask rts]. apply IH.
Qed.

(** The raster translation of a pyramid with at least one level is the one
    [_transform_raster] returns for the level that comes first. *)
Lemma transform_levels_first_level
    (_get_scale : Registry → M BaseTransformation) (t : BaseTransformation)
    (kw : Kwargs) (k : string) (v : list DataArray)
    (items : list (string * list DataArray))
    (out : list (string * DataArray)) (rt : option BaseTransformation) :
  (transform_levels _get_scale t kw ((k, v) :: items) [] None).2 = Ok (out, rt) →
  ∃ xdata composed dask rt0,
    v = [xdata] ∧
    (level_transformation _get_scale k xdata t).2 = Ok composed ∧
    (_transform_raster (xr_data xdata) (xr_dims xdata) composed kw).2
    = Ok (dask, rt0) ∧
    rt = Some rt0.
Proof.
  cbn [transform_levels]. rewrite snd_bind.
  destruct v as [|xdata [|xdata' v]]; cbn [length Nat.eqb assert ret raise snd];
    [done| |done].
  rewrite snd_bind. cbn [ret snd].
  step_bind as composed. step_bind as [dask rts].
  intros ->%transform_levels_keeps_raster_translation.
  exists xdata, composed, dask, rts.
  repeat match goal with H : _ = (_, Ok _) |- _ => rewrite H; clear H end.
  done.
Qed.

(** ** The dispatcher *)

(** Without [maintain_positioning] every arm of the dispatcher returns an
    element whose registry is a single entry under the default
    coordinate-system name, also when another target name was asked for:
    the identity for points and shapes; for a single-scale raster the
    transformation that [_transform_raster] returns with the transformed
    array; for a pyramid the one it returns for the level that comes first in
    the pyramid, under the transformation composed for that level. *)
Theorem transform_without_positioning_registers_default
    (D : string) (_get_scale : Registry → M BaseTransformation)
    (eigenvalue_moduli : matrix → list Q)
    (transformation : option BaseTransformation)
    (to_coordinate_system : option string) :
  (∀ data out,
     (transform_points D data transformation false to_coordinate_system).2
     = Ok out → df_transform out = {[D := Identity]}) ∧
  (∀ data out,
     (transform_shapes D eigenvalue_moduli data transformation false
        to_coordinate_system).2 = Ok out →
     gdf_transform out = {[D := Identity]}) ∧
  (∀ data out,
     (transform_spatial_image D data transformation false
        to_coordinate_system).2 = Ok out →
     ∃ t cs rt,
       (_validate_target_coordinate_systems D (xr_transform data)
          transformation false to_coordinate_system).2 = Ok (t, cs) ∧
       (_transform_raster (xr_data data) (xr_dims data) t
          kwargs_spatial_image).2 = Ok (xr_data out, rt) ∧
       xr_transform out = {[D := rt]}) ∧
  (∀ data out,
     (transform_multiscale D _get_scale data transformation false
        to_coordinate_system).2 = Ok out →
     ∃ t cs kw levels k xdata rest composed dask rt,
       (_validate_target_coordinate_systems D (ms_transform data)
          transformation false to_coordinate_system).2 = Ok (t, cs) ∧
       (multiscale_kwargs (ms_schema data)).2 = Ok kw ∧
       (transform_levels _get_scale t kw (ms_items data) [] None).2
       = Ok (levels, Some rt) ∧
       ms_items data = (k, [xdata]) :: rest ∧
       (level_transformation _get_scale k xdata t).2 = Ok composed ∧
       (_transform_raster (xr_data xdata) (xr_dims xdata) composed kw).2
       = Ok (dask, rt) ∧
       ms_items out = map (fun kx => (kx.1, [kx.2])) levels ∧
       ms_transform out = {[D := rt]}).
Proof.
  split; [|split; [|split]]; intros data out.
  - unfold transform_points. step_bind as [t cs].
    step_bind as ?. step_bind as ?. step_bind as ?.
    rewrite adjust_transformations_without_positioning, bind_ret.
    by intros [= <-].
  - unfold transform_shapes. step_bind as [t cs].
    step_bind as ?. step_bind as ?. step_bind as ?. step_bind as ?.
    rewrite adjust_transformations_without_positioning, bind_ret.
    by intros [= <-].
  - unfold transform_spatial_image. step_bind as [t cs].
    step_bind as [dask rt].
    rewrite adjust_transformations_without_positioning, bind_ret.
    intros [= <-]. exists t, cs, rt. cbn [xr_data xr_transform].
    match goal with H : _transform_raster _ _ _ _ = _ |- _ => by rewrite H end.
  - unfold transform_multiscale. step_bind as [t cs].
    step_bind as kw. step_bind as [levels rt].
    unfold set_transformation, resolve_cs. simpl default. rewrite insert_empty.
    rewrite adjust_transformations_without_positioning.
    destruct rt as [rt|]; [|done]. rewrite bind_ret.
    intros [= <-]. cbn [ms_items ms_transform].
    match goal with
    | H : transform_levels _ _ _ _ _ _ = _ |- _ =>
        pose proof (f_equal snd H) as Hlevels; cbn [snd] in Hlevels
    end.
    destruct (ms_items data) as [|[k v] rest] eqn:Hitems;
      [by injection Hlevels|].
    apply transform_levels_first_level in Hlevels
      as (xdata & composed & dask & rt0 & -> & Hc & Hr & [= <-]).
    exists t, cs, kw, levels, k, xdata, rest, composed, dask, rt.
    repeat match goal with H : _ = (_, Ok _) |- _ => rewrite H; clear H end.
    done.
Qed.

Lemma transform_without_positioning_registers_default_witness :
  (∃ out,
     (transform_points "global"
        {| df_len := 1; df_columns := [("x", [1]); ("y", [2])];
           df_axes := ["x"; "y"];
           df_transform := {["global" := Identity;
                             "aligned" := Translation [10; 20] ["x"; "y"]]} |}
        None false (Some "aligned")).2 = Ok out ∧
     df_transform out = {["global" := Identity]}) ∧
  (∃ out dask rt,
     (transform_multiscale "global" (fun _ => ret (Scale [2; 2] ["y"; "x"]))
        {| ms_schema := Image2DModel;
           ms_items :=
             [("scale0", [{| xr_data := source_array "scale0" [4; 4]%Z;
                             xr_dims := ["y"; "x"]; xr_name := "image";
                             xr_c_coords := None; xr_transform := ∅ |}]);
              ("scale1", [{| xr_data := source_array "scale1" [2; 2]%Z;
                             xr_dims := ["y"; "x"]; xr_name := "image";
                             xr_c_coords := None; xr_transform := ∅ |}])];
           ms_transform := {["global" := Identity;
                             "aligned" := Translation [1; 1] ["y"; "x"]]} |}
        None false (Some "aligned")).2 = Ok out ∧
     (_transform_raster (source_array "scale0" [4; 4]%Z) ["y"; "x"]
        (Translation [1; 1] ["y"; "x"])
        {| kw_prefilter := None; kw_order := None |}).2 = Ok (dask, rt) ∧
     ms_transform out = {["global" := rt]}).
Proof.
  pose proof (transform_without_positioning_registers_default "global"
                (fun _ => ret (Scale [2; 2] ["y"; "x"])) diagonal_moduli None
                (Some "aligned")) as (Hpoints & _ & _ & Hpyramid).
  split.
  - eexists. split; [vm_compute; reflexivity|].
    apply (Hpoints
             {| df_len := 1; df_columns := [("x", [1]); ("y", [2])];
                df_axes := ["x"; "y"];
                df_transform := {["global" := Identity;
                                  "aligned" := Translation [10; 20] ["x"; "y"]]} |}).
    vm_compute. reflexivity.
  - eassert (Hrun : (transform_multiscale "global"
                       (fun _ => ret (Scale [2; 2] ["y"; "x"]))
                       {| ms_schema := Image2DModel;
                          ms_items :=
                            [("scale0", [{| xr_data := source_array "scale0" [4; 4]%Z;
                                            xr_dims := ["y"; "x"]; xr_name := "image";
                                            xr_c_coords := None; xr_transform := ∅ |}]);
                             ("scale1", [{| xr_data := source_array "scale1" [2; 2]%Z;
                                            xr_dims := ["y"; "x"]; xr_name := "image";
                                            xr_c_coords := None; xr_transform := ∅ |}])];
                          ms_transform := {["global" := Identity;
                                            "aligned" := Translation [1; 1] ["y"; "x"]]} |}
                       None false (Some "aligned")).2 = Ok _)
      by (vm_compute; reflexivity).
    destruct (Hpyramid _ _ Hrun)
      as (t & cs & kw & levels & k & xdata & rest & composed & dask & rt
          & Hv & Hkw & _ & Hitems & Hc & Hr & _ & Hreg).
    cbn [ms_items ms_schema ms_transform] in Hitems, Hkw, Hv.
    injection Hitems as <- <- _. injection Hkw as <-.
    vm_compute in Hv. injection Hv as <- _.
    vm_compute in Hc. injection Hc as <-.
    eexists _, dask, rt. split; [exact Hrun|]. split; [exact Hr|exact Hreg].
Defined.

(** The raster translation the multiscale arm hands to the adjuster is the
    one of the level that comes first in the iteration over the pyramid,
    whatever that level is called; for a pyramid without levels there is
    none. *)
Theorem transform_levels_raster_translation_of_first_level
    (_get_scale : Registry → M BaseTransformation) (t : BaseTransformation)
    (kw : Kwargs) (items : list (string * list DataArray))
    (out : list (string * DataArray)) (rt : option BaseTransformation) :
  (transform_levels _get_scale t kw items [] None).2 = Ok (out, rt) →
  match items with
  | [] => rt = None ∧ out = []
  | (k, v) :: _ =>
      ∃ xdata composed dask rt0,
        v = [xdata] ∧
        (level_transformation _get_scale k xdata t).2 = Ok composed ∧
        (_transform_raster (xr_data xdata) (xr_dims xdata) composed kw).2
        = Ok (dask, rt0) ∧
        rt = Some rt0
  end.
Proof.
  destruct items as [|[k v] items].
  - by intros [= <- <-].
  - apply transform_levels_first_level.
Qed.

Lemma transform_levels_raster_translation_of_first_level_witness :
  ∃ out rt0,
    (transform_levels (fun _ => ret (Scale [2; 2] ["y"; "x"]))
       (Translation [1; 1] ["y"; "x"]) {| kw_prefilter := None; kw_order := None |}
       [("scale1", [{| xr_data := source_array "scale1" [2; 2]%Z;
                       xr_dims := ["y"; "x"]; xr_name := "image";
                       xr_c_coords := None; xr_transform := ∅ |}]);
        ("scale0", [{| xr_data := source_array "scale0" [4; 4]%Z;
                       xr_dims := ["y"; "x"]; xr_name := "image";
                       xr_c_coords := None; xr_transform := ∅ |}])] [] None).2
    = Ok (out, Some rt0) ∧
    ∃ dask,
      (_transform_raster (source_array "scale1" [2; 2]%Z) ["y"; "x"]
         (Sequence [Scale [2; 2] ["y"; "x"]; Translation [1; 1] ["y"; "x"];
                    Scale [/ 2; / 2] ["y"; "x"]])
         {| kw_prefilter := None; kw_order := None |}).2 = Ok (dask, rt0).
Proof.
  eexists _, _. split; [vm_compute; reflexivity|].
  edestruct (transform_levels_raster_translation_of_first_level
               (fun _ => ret (Scale [2; 2] ["y"; "x"]))
               (Translation [1; 1] ["y"; "x"])
               {| kw_prefilter := None; kw_order := None |}
               [("scale1", [{| xr_data := source_array "scale1" [2; 2]%Z;
                               xr_dims := ["y"; "x"]; xr_name := "image";
                               xr_c_coords := None; xr_transform := ∅ |}]);
                ("scale0", [{| xr_data := source_array "scale0" [4; 4]%Z;
                               xr_dims := ["y"; "x"]; xr_name := "image";
                               xr_c_coords := None; xr_transform := ∅ |}])])
    as (xdata & composed & dask & rt0 & Hv & Hc & Hr & Hrt);
    [vm_compute; reflexivity|].
  injection Hv as <-. injection Hc as <-. injection Hrt as <-.
  exists dask. exact Hr.
Defined.
(** ** What the arms refuse *)

Lemma mapM_columns_missing (columns : list (string * list Q)) (axes : list string) :
  Exists (fun a => dict_get a columns = None) axes →
  (mapM (fun ax => match dict_get ax columns with
                   | Some column => ret column
                   | None => raise KeyError
                   end) axes : M _).2 = Raise KeyError.
Proof.
  induction axes as [|a axes IH]; intros Hex; [by inversion Hex|].
  cbn [mapM]. rewrite snd_bind.
  destruct (dict_get a columns) as [c|] eqn:Hc; [|done].
  cbn [ret snd]. rewrite snd_bind, IH; [done|].
  inversion Hex; [congruence|done].
Qed.

(** A point table cannot be transformed when an axis names no column
    ([KeyError]) or when it has no axes at all ([ValueError], there being
    nothing to concatenate), whatever the transformation resolved is. *)
Theorem transform_points_needs_coordinate_columns
    (D : string) (data : DataFrame)
    (transformation : option BaseTransformation) (maintain_positioning : bool)
    (to_coordinate_system : option string) :
  succeeds (_validate_target_coordinate_systems D (df_transform data)
              transformation maintain_positioning to_coordinate_system) →
  (Exists (fun a => dict_get a (df_columns data) = None) (df_axes data) →
     fails_with (transform_points D data transformation maintain_positioning
                   to_coordinate_system) KeyError) ∧
  (df_axes data = [] →
     fails_with (transform_points D data transformation maintain_positioning
                   to_coordinate_system) ValueError).
Proof.
  intros (ws & [t cs] & Hval).
  split; intros H; apply fails_with_snd; unfold transform_points;
    rewrite snd_bind, Hval; cbn [snd]; rewrite snd_bind.
  - by rewrite mapM_columns_missing.
  - by rewrite H.
Qed.

Lemma transform_points_needs_coordinate_columns_witness :
  fails_with
    (transform_points "global"
       {| df_len := 1; df_columns := [("x", [1]); ("gene", [7])];
          df_axes := ["x"; "y"];
          df_transform := {["global" := Identity]} |}
       None false (Some "global")) KeyError.
Proof.
  apply (transform_points_needs_coordinate_columns "global"
           {| df_len := 1; df_columns := [("x", [1]); ("gene", [7])];
              df_axes := ["x"; "y"];
              df_transform := {["global" := Identity]} |}
           None false (Some "global")).
  - eexists _, _. vm_compute. reflexivity.
  - right. left. reflexivity.
Defined.

(** A shapes element without geometries cannot be transformed: once the
    transformation is resolved and materialised, looking at the first
    geometry ends in an [IndexError]. *)
Theorem transform_shapes_needs_a_geometry
    (D : string) (eigenvalue_moduli : matrix → list Q)
    (data : GeoDataFrameData) (transformation : option BaseTransformation)
    (maintain_positioning : bool) (to_coordinate_system : option string)
    (ws : list Warning) (t : BaseTransformation) (cs : option string) :
  _validate_target_coordinate_systems D (gdf_transform data) transformation
    maintain_positioning to_coordinate_system = (ws, Ok (t, cs)) →
  succeeds (to_affine_matrix t (take (length (gdf_axes data)) ["x"; "y"; "z"])) →
  gdf_geometry data = [] →
  fails_with (transform_shapes D eigenvalue_moduli data transformation
                maintain_positioning to_coordinate_system) IndexError.
Proof.
  intros Hval (wm & m & Hm) Hgeom. apply fails_with_snd.
  unfold transform_shapes. rewrite snd_bind, Hval. cbn [snd].
  rewrite snd_bind, Hm, Hgeom. cbn [snd mapM]. by rewrite snd_bind.
Qed.

Lemma transform_shapes_needs_a_geometry_witness :
  fails_with
    (transform_shapes "global" diagonal_moduli
       {| gdf_geometry := []; gdf_columns := [("radius", [])];
          gdf_axes := ["x"; "y"];
          gdf_transform := {["global" := Identity]} |}
       None false (Some "global")) IndexError.
Proof.
  eapply (transform_shapes_needs_a_geometry "global" diagonal_moduli
            {| gdf_geometry := []; gdf_columns := [("radius", [])];
               gdf_axes := ["x"; "y"];
               gdf_transform := {["global" := Identity]} |}
            None false (Some "global")).
  - vm_compute. reflexivity.
  - eexists _, _. vm_compute. reflexivity.
  - reflexivity.
Defined.

(** ** Extents of a transformed raster *)

(** Whatever the transformation (reflections included), no spatial extent of
    the array returned by [_transform_raster] is negative, and none exceeds
    the spread of the transformed corner points along its axis. *)
Theorem transform_raster_extents_are_bounded data axes t kw n m tinv mi :
  _get_n_spatial_dims axes = ret n →
  to_affine_matrix t axes = ret m →
  inverse t = ret tinv →
  to_affine_matrix tinv axes = ret mi →
  length (shape data) = length axes →
  let c := if has_axis "c" axes then 1%nat else 0%nat in
  let new_v := raster_new_v data axes n m in
  ∃ out rt,
    _transform_raster data axes t kw = ret (out, rt) ∧
    ∀ k s, (k < n)%nat → shape out !! (c + k)%nat = Some s →
      (0 <= s)%Z ∧
      inject_Z s <= np_max (column (c + k) new_v) - np_min (column (c + k) new_v).
Proof.
  intros Hn Hm Hinv Hmi Hlen c new_v.
  destruct (transform_raster_eq data axes t kw n m tinv mi Hn Hm Hinv Hmi)
    as (mt & _ & _ & ->).
  eexists _, _. split; [reflexivity|]. cbn [shape].
  set (c_shape := if has_axis "c" axes then take 1 (shape data) else []).
  assert (Hcs : length c_shape = c).
  { subst c_shape c. destruct (has_axis "c" axes); [|done].
    rewrite length_take.
    destruct (get_n_spatial_dims_inv _ _ Hn)
      as [[-> ->]|[[-> ->]|[[-> ->]|[-> ->]]]]; simpl in Hlen; lia. }
  intros k s Hk. rewrite lookup_app_r by lia. rewrite Hcs.
  replace (c + k - c)%nat with k by lia.
  rewrite list_lookup_fmap, lookup_seq_lt by done. cbn [fmap option_fmap option_map].
  intros [= <-].
  pose proof (np_min_is_minimum _ (column_new_v_nonempty data axes n m (c + k))) as Hmin.
  pose proof (np_max_is_maximum _ (column_new_v_nonempty data axes n m (c + k))) as Hmax.
  pose proof (minimum_le_maximum _ _ _ Hmin Hmax) as Hle.
  apply Qle_minus_iff in Hle.
  rewrite int_nonneg by exact Hle.
  split.
  - change 0%Z with (Qfloor 0). by apply Qfloor_resp_le.
  - apply Qfloor_le.
Qed.

Lemma transform_raster_extents_are_bounded_witness :
  ∃ out rt,
    _transform_raster (source_array "image" [3; 3]%Z) ["y"; "x"]
      (Scale [- (1 # 2); 1] ["y"; "x"]) kwargs_spatial_image = ret (out, rt) ∧
    ∀ s, shape out !! 0%nat = Some s → (0 <= s)%Z.
Proof.
  edestruct (transform_raster_extents_are_bounded
               (source_array "image" [3; 3]%Z) ["y"; "x"]
               (Scale [- (1 # 2); 1] ["y"; "x"]) kwargs_spatial_image 2%nat)
    as (out & rt & Hrun & H);
    [reflexivity|vm_compute; reflexivity|vm_compute; reflexivity
    |vm_compute; reflexivity|reflexivity|].
  exists out, rt. split; [exact Hrun|].
  intros s Hs. apply (H 0%nat s); [lia|exact Hs].
Defined.

(** ** Elements *)

(** [Image._infer_axes] names the axes of an array of up to three dimensions
    by the last names of (c, y, x), one per dimension.  For an array of more
    dimensions the negative start of the slice counts from the end: four
    dimensions get the single axis (x), and the number of names never equals
    the number of dimensions again. *)
Theorem infer_axes_by_dimension (shape : list Z) :
  ((length shape <= 3)%nat →
     _infer_axes shape = drop (3 - length shape) ["c"; "y"; "x"] ∧
     length (_infer_axes shape) = length shape) ∧
  ((3 < length shape)%nat →
     length (_infer_axes shape) = Nat.min 3 (length shape - 3) ∧
     length (_infer_axes shape) ≠ length shape).
Proof.
  unfold _infer_axes, py_slice_from. cbn [length].
  split; intros Hlen.
  - destruct shape as [|? [|? [|? [|? shape]]]]; simpl in Hlen; try lia; done.
  - destruct (Z.ltb_spec (3 - Z.of_nat (length shape)) 0) as [Hneg|]; [|lia].
    rewrite length_drop. cbn [length]. lia.
Qed.

Lemma infer_axes_by_dimension_witness :
  _infer_axes [3; 64; 64]%Z = ["c"; "y"; "x"] ∧
  length (_infer_axes [2; 3; 64; 64]%Z) = 1%nat.
Proof.
  destruct (infer_axes_by_dimension [3; 64; 64]%Z) as [H3 _].
  destruct (infer_axes_by_dimension [2; 3; 64; 64]%Z) as [_ H4].
  split.
  - apply H3. simpl. lia.
  - apply H4. simpl. lia.
Defined.

Lemma fold_dict_set_pairs {A B} (key : A → string) (val : A → B) (l : list A)
    (d : list (string * B)) :
  NoDup (d.*1 ++ map key l) →
  fold_left (fun d x => dict_set (key x) (val x) d) l d
  = d ++ map (fun x => (key x, val x)) l.
Proof.
  revert d. induction l as [|x l IH]; intros d Hnd; simpl.
  - by rewrite app_nil_r.
  - assert (Hx : key x ∉ d.*1).
    { simpl in Hnd. apply NoDup_app in Hnd as (_ & Hd & _).
      intros Hin. apply (Hd _ Hin). left. }
    rewrite dict_set_fresh by done. rewrite IH.
    + by rewrite <- app_assoc.
    + by rewrite fmap_app, <- app_assoc.
Qed.

Lemma length_remove_dups_le (l : list string) :
  (length (remove_dups l) <= length l)%nat.
Proof.
  induction l as [|k l IH]; simpl; [lia|].
  destruct (decide_rel elem_of k l); simpl; lia.
Qed.

Lemma remove_dups_NoDup (l : list string) : NoDup l → remove_dups l = l.
Proof.
  induction 1 as [|k l Hk _ IH]; simpl; [done|].
  destruct (decide_rel elem_of k l); [done|]. by rewrite IH.
Qed.

Lemma count_distinct_NoDup (keys : list string) :
  count_distinct keys = length keys ↔ NoDup keys.
Proof.
  unfold count_distinct. split.
  - intros Hlen. induction keys as [|k keys IH]; [constructor|].
    simpl in Hlen. destruct (decide_rel elem_of k keys) as [Hin|Hin].
    + pose proof (length_remove_dups_le keys). lia.
    + simpl in Hlen. constructor; [done|]. apply IH. lia.
  - intros Hnd. by rewrite remove_dups_NoDup.
Qed.

(** [BaseElement.__init__] goes through exactly when the coordinate systems
    given have distinct names, and then both dictionaries hold one entry per
    coordinate system, in the order given, under its name; in particular
    the transformation of a coordinate system is found under its name. *)
Theorem BaseElement_init_keys_by_name
    (alignment_info : list (CoordinateSystem * BaseTransformation)) :
  let names := map (fun kv => cs_name kv.1) alignment_info in
  (¬ NoDup names → BaseElement_init alignment_info = raise AssertionError) ∧
  (NoDup names →
     BaseElement_init alignment_info
     = ret (map (fun kv => (cs_name kv.1, kv.1)) alignment_info,
            map (fun kv => (cs_name kv.1, kv.2)) alignment_info) ∧
     ∀ cs t, (cs, t) ∈ alignment_info →
       dict_get (cs_name cs)
         (map (fun kv => (cs_name kv.1, kv.2)) alignment_info) = Some t).
Proof.
  intros names. unfold BaseElement_init. fold names.
  replace (length alignment_info) with (length names)
    by (subst names; by rewrite length_map).
  split.
  - intros Hnd. destruct (Nat.eqb_spec (count_distinct names) (length names))
      as [Heq|]; [|done].
    by apply count_distinct_NoDup in Heq.
  - intros Hnd. pose proof (proj2 (count_distinct_NoDup names) Hnd) as ->.
    rewrite Nat.eqb_refl. cbn [assert]. rewrite bind_ret.
    rewrite !fold_dict_set_pairs by done. split; [done|].
    intros cs t Hin. clear -Hnd Hin. subst names.
    induction alignment_info as [|[cs' t'] l IH]; [by apply elem_of_nil in Hin|].
    cbn [map fst snd] in *. apply NoDup_cons in Hnd as [Hn Hnd].
    unfold dict_get. cbn [List.find fst].
    apply elem_of_cons in Hin as [[= -> ->]|Hin].
    + by rewrite String.eqb_refl.
    + destruct (String.eqb_spec (cs_name cs) (cs_name cs')) as [Heq|_].
      * exfalso. apply Hn. rewrite <- Heq.
        apply list_elem_of_In, in_map_iff. exists (cs, t).
        split; [done|]. by apply list_elem_of_In.
      * by apply IH.
Qed.

Lemma BaseElement_init_keys_by_name_witness :
  BaseElement_init
    [({| cs_name := "global"; cs_axes := ["x"; "y"] |}, Identity);
     ({| cs_name := "global"; cs_axes := ["x"; "y"; "z"] |}, Identity)]
  = raise AssertionError.
Proof.
  apply (BaseElement_init_keys_by_name
           [({| cs_name := "global"; cs_axes := ["x"; "y"] |}, Identity);
            ({| cs_name := "global"; cs_axes := ["x"; "y"; "z"] |}, Identity)]).
  intros Hnd. apply NoDup_cons in Hnd as [Hn _]. apply Hn. left.
Defined.

(** ** Regular expressions: the derivative matcher decides the language *)

Lemma nullable_spec r : nullable r = true ↔ re_lang r [].
Proof.
  induction r as [| | | |r1 IH1 r2 IH2|r1 IH1 r2 IH2|r IH]; simpl.
  - done.
  - done.
  - done.
  - split; [done|]. by intros (c & ? & _).
  - rewrite andb_true_iff, IH1, IH2. split.
    + intros [H1 H2]. by exists [], [].
    + intros (l1 & l2 & Hl & H1 & H2).
      symmetry in Hl. apply app_eq_nil in Hl as [-> ->]. done.
  - by rewrite orb_true_iff, IH1, IH2.
  - split; [|done]. intros _. by exists [].
Qed.

Lemma deriv_spec c r : ∀ l, re_lang (deriv c r) l ↔ re_lang r (c :: l).
Proof.
  induction r as [| |c'|lo hi|r1 IH1 r2 IH2|r1 IH1 r2 IH2|r IH]; intros l; simpl.
  - done.
  - done.
  - destruct (Ascii.eqb_spec c c') as [->|Hne]; simpl.
    + split; [by intros ->|by intros [= ->]].
    + split; [done|]. by intros [= ? _].
  - destruct (in_range lo hi c) eqn:Hr; simpl.
    + split; [intros ->; by exists c|by intros (c0 & [= -> ->] & _)].
    + split; [done|]. intros (c0 & [= -> ->] & Hc). congruence.
  - assert (Hcat : (∃ l1 l2, l = l1 ++ l2 ∧ re_lang (deriv c r1) l1 ∧ re_lang r2 l2)
             ∨ (nullable r1 = true ∧ re_lang (deriv c r2) l)
             ↔ ∃ l1 l2, c :: l = l1 ++ l2 ∧ re_lang r1 l1 ∧ re_lang r2 l2).
    { split.
      - intros [(l1 & l2 & -> & H1 & H2)|[Hn H2]].
        + exists (c :: l1), l2. by rewrite IH1 in H1.
        + exists [], (c :: l). apply nullable_spec in Hn. by rewrite IH2 in H2.
      - intros (l1 & l2 & Hl & H1 & H2). destruct l1 as [|c1 l1].
        + right. simpl in Hl. subst l2. split; [by apply nullable_spec|by apply IH2].
        + left. injection Hl as <- ->. exists l1, l2. by rewrite IH1. }
    rewrite <- Hcat. destruct (nullable r1); simpl.
    + split; [intros [H|H]; [by left|by right]|intros [H|[_ H]]; [by left|by right]].
    + split; [by left|]. by intros [H|[? _]].
  - by rewrite IH1, IH2.
  - split.
    + intros (l1 & l2 & -> & H1 & (ls & -> & Hls)).
      exists ((c :: l1) :: ls). split; [done|]. constructor; [by apply IH|done].
    + intros (ls & Hl & Hls).
      induction Hls as [|x ls Hx Hls IHls]; [done|].
      destruct x as [|c1 x].
      * by apply IHls.
      * simpl in Hl. injection Hl as <- ->.
        exists x, (concat ls). split; [done|]. split; [by apply IH|by exists ls].
Qed.

Lemma re_fullmatch_spec r s :
  re_fullmatch r s = true ↔ re_lang r (String.list_ascii_of_string s).
Proof.
  revert r. induction s as [|c s IH]; intros r; simpl.
  - apply nullable_spec.
  - by rewrite IH, deriv_spec.
Qed.

Lemma re_lang_alphabet r : ∀ l c, re_lang r l → c ∈ l → re_alphabet r c = true.
Proof.
  induction r as [| |c'|lo hi|r1 IH1 r2 IH2|r1 IH1 r2 IH2|r IH]; intros l c; simpl.
  - done.
  - intros ->. by intros ?%elem_of_nil.
  - intros ->. intros ->%list_elem_of_singleton. apply Ascii.eqb_refl.
  - intros (c0 & -> & Hc). by intros ->%list_elem_of_singleton.
  - intros (l1 & l2 & -> & H1 & H2) [Hin|Hin]%elem_of_app; apply orb_true_iff.
    + left. by eapply IH1.
    + right. by eapply IH2.
  - intros [H|H] Hin; apply orb_true_iff; [left; by eapply IH1|right; by eapply IH2].
  - intros (ls & -> & Hls) Hin.
    induction Hls as [|x ls Hx _ IHls]; [by apply elem_of_nil in Hin|].
    simpl in Hin. apply elem_of_app in Hin as [Hin|Hin]; [by eapply IH|by apply IHls].
Qed.

(** ** The polygon string codec, in general *)

(** [string_to_tensor] answers [None] for every text that holds a character
    other than brackets, commas, decimal points and the digits 0 to 9: a
    minus sign, an exponent, a blank. *)
Theorem string_to_tensor_None_on_other_characters (s : string) (c : ascii) :
  c ∈ String.list_ascii_of_string s →
  c ∉ String.list_ascii_of_string "[],.0123456789" →
  string_to_tensor s = ret None.
Proof.
  intros Hin Hc. unfold string_to_tensor.
  destruct (re_fullmatch pattern s) eqn:Hm; [|done].
  apply re_fullmatch_spec in Hm.
  pose proof (re_lang_alphabet _ _ _ Hm Hin) as Ha.
  exfalso. apply Hc. clear -Ha.
  cbn [pattern re_group re_decimal re_plus re_opt re_alphabet] in Ha.
  rewrite !orb_true_iff in Ha. cbn [String.list_ascii_of_string].
  assert (Hd : in_range "0" "9" c = true → c ∈ String.list_ascii_of_string "0123456789").
  { clear. unfold in_range. intros [H1 H2]%andb_true_iff.
    apply Nat.leb_le in H1, H2. rewrite <- (ascii_nat_embedding c).
    change (nat_of_ascii "0") with 48%nat in H1.
    change (nat_of_ascii "9") with 57%nat in H2.
    assert (Hn : nat_of_ascii c ∈ seq 48 10) by (apply elem_of_seq; lia).
    revert Hn. generalize (nat_of_ascii c). intros n Hn.
    cbn [seq] in Hn. cbn [String.list_ascii_of_string].
    repeat (apply elem_of_cons in Hn as [->|Hn];
            [apply (bool_decide_unpack _); vm_compute; exact I|]).
    by apply elem_of_nil in Hn. }
  cbn [String.list_ascii_of_string] in Hd.
  repeat match goal with
  | H : _ ∨ _ |- _ => destruct H as [H|H]
  | H : Ascii.eqb _ _ = true |- _ => apply Ascii.eqb_eq in H as ->
  | H : in_range _ _ _ = true |- _ => apply Hd in H
  end.
  all: try discriminate.
  all: try (do 4 apply list_elem_of_further; assumption).
  all: apply (bool_decide_unpack _); vm_compute; exact I.
Qed.

Lemma string_to_tensor_None_on_other_characters_witness :
  string_to_tensor "[[-1.5,2.5]]" = ret None.
Proof.
  apply (string_to_tensor_None_on_other_characters "[[-1.5,2.5]]" "-").
  - cbn [String.list_ascii_of_string]. apply list_elem_of_further.
    apply list_elem_of_further. apply list_elem_of_here.
  - apply (bool_decide_unpack _). vm_compute. exact I.
Defined.

(** *** The language of the pattern *)

Lemma re_lang_digits d : re_lang (re_plus (re_rng "0" "9")) d ↔ digits d.
Proof.
  unfold digits, re_plus, is_digit. simpl. split.
  - intros (l1 & l2 & -> & (c & -> & Hc) & ls & -> & Hls). split; [done|].
    constructor; [done|]. induction Hls as [|x ls (c' & -> & Hc') _ IH]; simpl.
    + constructor.
    + by constructor.
  - intros [Hne Hd]. destruct d as [|c d]; [done|].
    apply Forall_cons in Hd as [Hc Hd]. exists [c], d. split; [done|].
    split; [by exists c|]. exists (map (fun c => [c]) d). split.
    + clear. induction d as [|c d IH]; simpl; [done|]. by rewrite <- IH.
    + apply Forall_map. eapply Forall_impl; [exact Hd|]. intros c' Hc'. by exists c'.
Qed.

Lemma re_lang_decimal l :
  re_lang re_decimal l ↔ ∃ d1 d2, l = d1 ++ ["."%char] ++ d2 ∧ digits d1 ∧ digits d2.
Proof.
  unfold re_decimal. cbn [re_lang]. split.
  - intros (d1 & l2 & -> & H1%re_lang_digits & l3 & d2 & -> & -> & H2%re_lang_digits).
    by exists d1, d2.
  - intros (d1 & d2 & -> & H1 & H2). exists d1, (["."%char] ++ d2).
    split; [done|]. split; [by apply re_lang_digits|].
    exists ["."%char], d2. split; [done|]. split; [done|by apply re_lang_digits].
Qed.

Lemma re_lang_group l :
  re_lang re_group l ↔ ∃ g, l = group_text g ∧ group_ok g.
Proof.
  unfold re_group. cbn [re_lang re_opt]. split.
  - intros (? & ? & -> & -> & ? & ? & -> & (d1 & d2 & -> & H1 & H2)%re_lang_decimal
            & ? & ? & -> & -> & ? & ? & -> & (d3 & d4 & -> & H3 & H4)%re_lang_decimal
            & ? & opt & -> & -> & Hopt).
    destruct Hopt as [-> | ->];
      [exists {| g_d1 := d1; g_d2 := d2; g_d3 := d3; g_d4 := d4; g_comma := true |}
      |exists {| g_d1 := d1; g_d2 := d2; g_d3 := d3; g_d4 := d4; g_comma := false |}];
      (split; [|done]); unfold group_text; cbn [g_d1 g_d2 g_d3 g_d4 g_comma];
      by rewrite <- ?app_assoc.
  - intros ([d1 d2 d3 d4 comma] & -> & H1 & H2 & H3 & H4).
    unfold group_text. cbn [g_d1 g_d2 g_d3 g_d4 g_comma] in *.
    eexists _, _. split; [reflexivity|]. split; [reflexivity|].
    exists (d1 ++ ["."%char] ++ d2), ([","%char] ++ d3 ++ ["."%char] ++ d4 ++ ["]"%char]
             ++ (if comma then [","%char] else [])).
    split; [by rewrite <- !app_assoc|].
    split; [apply re_lang_decimal; by exists d1, d2|].
    eexists _, _. split; [reflexivity|]. split; [reflexivity|].
    exists (d3 ++ ["."%char] ++ d4), (["]"%char] ++ (if comma then [","%char] else [])).
    split; [by rewrite <- !app_assoc|].
    split; [apply re_lang_decimal; by exists d3, d4|].
    eexists _, _. split; [reflexivity|]. split; [reflexivity|].
    destruct comma; [by left|by right].
Qed.

(** The texts the pattern of [string_to_tensor] matches are the bracketed
    non-empty sequences of groups. *)
Lemma pattern_spec s :
  re_fullmatch pattern s = true ↔
  ∃ gs, gs ≠ [] ∧ Forall group_ok gs ∧ s = tensor_text gs.
Proof.
  rewrite re_fullmatch_spec.
  unfold pattern.
  cbn [re_lang re_plus]. split.
  - intros (? & ? & Hs & -> & ? & ? & -> & (l1 & ? & -> & (g & -> & Hg)%re_lang_group
            & ls & -> & Hls) & ->).
    assert (Hgs : ∃ gs, concat ls = concat (map group_text gs) ∧ Forall group_ok gs).
    { clear -Hls. induction Hls as [|x ls (g & -> & Hg)%re_lang_group _ (gs & IH & Hgs)].
      - by exists [].
      - exists (g :: gs). simpl. rewrite IH. by split; [|constructor]. }
    destruct Hgs as (gs & Hc & Hgs). exists (g :: gs).
    split; [done|]. split; [by constructor|].
    unfold tensor_text. rewrite <- (String.string_of_list_ascii_of_string s), Hs.
    f_equal. simpl. by rewrite Hc, <- !app_assoc.
  - intros (gs & Hne & Hgs & ->). unfold tensor_text.
    rewrite String.list_ascii_of_string_of_list_ascii.
    destruct gs as [|g gs]; [done|]. apply Forall_cons in Hgs as [Hg Hgs].
    eexists _, _. split; [reflexivity|]. split; [reflexivity|].
    exists (concat (map group_text (g :: gs))), ["]"%char].
    split; [done|]. split; [|done].
    exists (group_text g), (concat (map group_text gs)).
    split; [done|]. split; [apply re_lang_group; by exists g|].
    exists (map group_text gs). split; [done|].
    apply Forall_map. eapply Forall_impl; [exact Hgs|].
    intros g' Hg'. apply re_lang_group. by exists g'.
Qed.

(** *** The parser on the texts of the pattern *)

Abbreviation str := String.string_of_list_ascii (only parsing).

Lemma length_str l : String.length (str l) = length l.
Proof. induction l as [|c l IH]; simpl; [done|]. by rewrite IH. Qed.

Lemma append_str a b : String.append (str a) (str b) = str (a ++ b).
Proof.
  induction a as [|c a IH]; [done|]. cbn [String.string_of_list_ascii app].
  change (String.append (String c (str a)) (str b))
    with (String c (String.append (str a) (str b))).
  by rewrite IH.
Qed.

Lemma eat_str c c' l :
  eat c (str (c' :: l)) = if Ascii.eqb c' c then Some (str l) else None.
Proof. done. Qed.

Lemma digit_not c x : is_digit c = true → is_digit x = false → Ascii.eqb c x = false.
Proof.
  intros Hc Hx. destruct (Ascii.eqb_spec c x) as [->|]; [congruence|done].
Qed.

(** what can follow a number inside a group: a comma or a closing bracket *)
Definition closes (rest : list ascii) : Prop :=
  ∃ r, rest = ","%char :: r ∨ rest = "]"%char :: r.

Lemma span_digits_app d rest :
  Forall (fun c => is_digit c = true) d →
  match rest with [] => True | c :: _ => is_digit c = false end →
  span_digits (str (d ++ rest)) = (str d, str rest).
Proof.
  intros Hd Hrest. induction Hd as [|c d Hc _ IH]; simpl.
  - destruct rest as [|c rest]; [done|]. simpl. by rewrite Hrest.
  - by rewrite Hc, IH.
Qed.

Lemma parse_number_decimal d1 d2 rest :
  digits d1 → digits d2 → closes rest →
  parse_number (str (d1 ++ "."%char :: d2 ++ rest))
  = Some (decimal_value d1 d2, str rest).
Proof.
  intros [Hne1 Hd1] [Hne2 Hd2] Hrest. unfold parse_number.
  destruct d1 as [|c1 d1]; [done|]. pose proof Hd1 as Hd1'.
  apply Forall_cons in Hd1' as [Hc1 _].
  change (str ((c1 :: d1) ++ "."%char :: d2 ++ rest))
    with (str (c1 :: (d1 ++ "."%char :: d2 ++ rest))) at 1.
  rewrite eat_str, (digit_not c1 "-") by done.
  rewrite span_digits_app by done.
  rewrite length_str. cbn [length Nat.eqb].
  rewrite eat_str. cbn [Ascii.eqb Bool.eqb].
  rewrite span_digits_app; [|done|by destruct Hrest as (r & [-> | ->])].
  assert (Hexp : parse_exponent (str rest) = Some (0%Z, str rest)).
  { by destruct Hrest as (r & [-> | ->]). }
  rewrite Hexp, append_str, length_str. f_equal. f_equal.
  unfold decimal_value. apply Qred_complete. simpl Qpower. ring.
Qed.

Lemma parse_items_group fuel d1 d2 d3 d4 rest :
  (2 <= fuel)%nat → digits d1 → digits d2 → digits d3 → digits d4 →
  parse_items parse_number fuel
    (str (d1 ++ "."%char :: d2 ++ ","%char :: d3 ++ "."%char :: d4
          ++ "]"%char :: rest))
  = Some ([decimal_value d1 d2; decimal_value d3 d4], str rest).
Proof.
  intros Hfuel H1 H2 H3 H4.
  destruct fuel as [|[|fuel]]; [lia|lia|]. cbn [parse_items].
  assert (Hhead : ∀ d l, digits d → eat "]" (str (d ++ l)) = None).
  { intros [|c d] l [Hne Hd]; [done|]. apply Forall_cons in Hd as [Hc _].
    cbn [app]. by rewrite eat_str, (digit_not c "]"). }
  rewrite Hhead by done.
  rewrite (parse_number_decimal d1 d2) by (try done; eexists; by left).
  rewrite !eat_str. cbn [Ascii.eqb Bool.eqb].
  rewrite Hhead by done.
  rewrite (parse_number_decimal d3 d4) by (try done; eexists; by right).
  by rewrite !eat_str.
Qed.

(** the text of a group after its opening bracket *)
Lemma group_text_eq g :
  group_text g
  = "["%char :: g_d1 g ++ "."%char :: g_d2 g ++ ","%char :: g_d3 g
    ++ "."%char :: g_d4 g ++ "]"%char :: (if g_comma g then [","%char] else []).
Proof. done. Qed.

Lemma parse_row_group g rest :
  group_ok g →
  parse_row (str (group_text g ++ rest))
  = Some (group_row g, str ((if g_comma g then [","%char] else []) ++ rest)).
Proof.
  intros (H1 & H2 & H3 & H4). unfold parse_row. rewrite group_text_eq.
  cbn [app]. rewrite eat_str. cbn [Ascii.eqb Bool.eqb].
  repeat rewrite <- app_assoc, <- app_comm_cons.
  rewrite parse_items_group; [done| |done..].
  rewrite length_str. destruct H1 as [Hne _].
  destruct (g_d1 g); [done|]. simpl. lia.
Qed.

Lemma parse_row_not_bracket c l :
  Ascii.eqb c "[" = false → parse_row (str (c :: l)) = None.
Proof. intros Hc. unfold parse_row. by rewrite eat_str, Hc. Qed.

Lemma length_concat_groups gs :
  (length gs <= length (concat (map group_text gs)))%nat.
Proof.
  induction gs as [|g gs IH]; simpl; [lia|].
  rewrite length_app. lia.
Qed.

Lemma after_subscripts_length gs rest :
  after_subscripts gs = Some rest → (length rest < length gs)%nat.
Proof.
  induction gs as [|g gs IH]; simpl; [done|].
  destruct (g_comma g); [intros [= ->]; lia|]. intros H%IH. lia.
Qed.

Lemma skip_subscripts_groups n gs :
  Forall group_ok gs → (length gs <= n)%nat →
  skip_subscripts n (str (concat (map group_text gs) ++ ["]"%char]))
  = str (match after_subscripts gs with
         | None => ["]"%char]
         | Some rest => ","%char :: concat (map group_text rest) ++ ["]"%char]
         end).
Proof.
  intros Hgs. revert n. induction Hgs as [|g gs Hg _ IH]; intros n Hn.
  - destruct n; [done|]. cbn [skip_subscripts map concat app].
    by rewrite parse_row_not_bracket.
  - destruct n as [|n]; [simpl in Hn; lia|].
    cbn [skip_subscripts map concat after_subscripts].
    rewrite <- app_assoc, parse_row_group by done.
    destruct (g_comma g).
    + cbn [app]. destruct n; [done|]. cbn [skip_subscripts].
      by rewrite parse_row_not_bracket.
    + cbn [app]. apply IH. simpl in Hn. lia.
Qed.

Lemma parse_row_item_group g rest :
  group_ok g →
  parse_row_item (str (group_text g ++ rest))
  = let rest' := str ((if g_comma g then [","%char] else []) ++ rest) in
    match parse_row rest' with
    | Some _ => Some (inr TypeError, skip_subscripts (String.length rest') rest')
    | None => Some (inl (group_row g), rest')
    end.
Proof. intros Hg. unfold parse_row_item. by rewrite parse_row_group. Qed.

(** What [eval] makes of a text of the pattern: its rows when every group
    but the last is followed by a comma, a [TypeError] otherwise. *)
Lemma parse_items_groups fuel : ∀ gs,
  Forall group_ok gs → (length gs < fuel)%nat →
  ∃ items,
    parse_items parse_row_item fuel
      (str (concat (map group_text gs) ++ ["]"%char]))
    = Some (items, EmptyString) ∧
    collect_rows items
    = if separated gs then ret (map group_row gs) else raise TypeError.
Proof.
  induction fuel as [|fuel IH]; intros gs Hgs Hfuel; [lia|].
  destruct gs as [|g gs].
  { exists []. by split. }
  apply Forall_cons in Hgs as [Hg Hgs]. cbn [parse_items map concat].
  rewrite <- app_assoc.
  assert (Hopen : ∀ l, eat "]" (str (group_text g ++ l)) = None) by done.
  rewrite Hopen, parse_row_item_group by done. cbv zeta.
  destruct (g_comma g) eqn:Hcomma.
  - cbn [app]. rewrite parse_row_not_bracket by done.
    rewrite !eat_str. cbn [Ascii.eqb Bool.eqb].
    destruct (IH gs Hgs) as (items & -> & Hitems); [simpl in Hfuel; lia|].
    exists (inl (group_row g) :: items). split; [done|].
    cbn [collect_rows separated]. rewrite Hitems, Hcomma.
    destruct gs as [|g' gs]; [done|]. cbn [andb].
    by destruct (separated (g' :: gs)).
  - cbn [app]. destruct gs as [|g' gs].
    + cbn [map concat app]. rewrite parse_row_not_bracket by done.
      rewrite eat_str. cbn [Ascii.eqb Bool.eqb].
      exists [inl (group_row g)]. split; [done|]. cbn [separated]. done.
    + apply Forall_cons in Hgs as [Hg' Hgs].
      assert (Hrow : ∃ r, parse_row (str (concat (map group_text (g' :: gs))
                                          ++ ["]"%char])) = Some r).
      { cbn [map concat]. rewrite <- app_assoc, parse_row_group by done.
        by eexists. }
      destruct Hrow as [r ->].
      rewrite skip_subscripts_groups;
        [|by constructor
         |rewrite length_str, length_app; pose proof (length_concat_groups (g' :: gs)); lia].
      cbn [separated]. rewrite Hcomma. cbn [andb].
      destruct (after_subscripts (g' :: gs)) as [rest|] eqn:Hafter.
      * rewrite !eat_str. cbn [Ascii.eqb Bool.eqb].
        assert (Hrest : Forall group_ok rest).
        { clear -Hafter Hg' Hgs.
          assert (Hall : Forall group_ok (g' :: gs)) by (by constructor).
          revert Hafter Hall. generalize (g' :: gs). intros l.
          induction l as [|x l IHl]; simpl; [done|].
          intros H Hl. apply Forall_cons in Hl as [_ Hl].
          destruct (g_comma x); [by injection H as <-|by apply IHl]. }
        apply after_subscripts_length in Hafter.
        destruct (IH rest Hrest) as (items & -> & _); [simpl in *; lia|].
        exists (inr TypeError :: items). by split.
      * rewrite eat_str. cbn [Ascii.eqb Bool.eqb].
        exists [inr TypeError]. by split.
Qed.

Lemma py_eval_tensor_text gs :
  Forall group_ok gs →
  py_eval (tensor_text gs)
  = if separated gs then ret (map group_row gs) else raise TypeError.
Proof.
  intros Hgs. unfold py_eval, tensor_text. cbn [app]. rewrite eat_str.
  cbn [Ascii.eqb Bool.eqb].
  destruct (parse_items_groups
              (S (String.length (str (concat (map group_text gs) ++ ["]"%char]))))
              gs Hgs) as (items & -> & Hitems); [|done].
  rewrite length_str, length_app. pose proof (length_concat_groups gs). simpl. lia.
Qed.
(** On a text of the pattern in which every group but the last is followed
    by a comma, [string_to_tensor] returns the array of the numbers written
    in it, one row of two per group. *)
Theorem string_to_tensor_decodes_separated_text (gs : list group) :
  gs ≠ [] → Forall group_ok gs → separated gs = true →
  string_to_tensor (tensor_text gs) = ret (Some (map group_row gs)).
Proof.
  intros Hne Hgs Hsep. unfold string_to_tensor.
  rewrite (proj2 (pattern_spec (tensor_text gs))) by (by exists gs).
  by rewrite py_eval_tensor_text, Hsep, bind_ret.
Qed.

Lemma string_to_tensor_decodes_separated_text_witness :
  string_to_tensor "[[1.5,2.25],[10.0,0.5]]"
  = ret (Some [[3 # 2; 9 # 4]; [10; 1 # 2]]).
Proof.
  apply (string_to_tensor_decodes_separated_text
           [{| g_d1 := ["1"%char]; g_d2 := ["5"%char]; g_d3 := ["2"%char];
               g_d4 := ["2"%char; "5"%char]; g_comma := true |};
            {| g_d1 := ["1"%char; "0"%char]; g_d2 := ["0"%char];
               g_d3 := ["0"%char]; g_d4 := ["5"%char]; g_comma := false |}]).
  - discriminate.
  - repeat constructor; discriminate.
  - reflexivity.
Defined.

(** The pattern lets the comma between two groups be left out, but [eval]
    does not: on a text of the pattern in which a group other than the last
    is not followed by a comma, [string_to_tensor] raises a [TypeError] (the
    next group is read as a subscript of the list before it). *)
Theorem string_to_tensor_raises_on_missing_comma (gs : list group) :
  Forall group_ok gs → separated gs = false →
  re_fullmatch pattern (tensor_text gs) = true ∧
  string_to_tensor (tensor_text gs) = raise TypeError.
Proof.
  intros Hgs Hsep.
  assert (Hm : re_fullmatch pattern (tensor_text gs) = true).
  { apply pattern_spec. exists gs. split; [by intros ->|done]. }
  split; [done|]. unfold string_to_tensor.
  by rewrite Hm, py_eval_tensor_text, Hsep.
Qed.

Lemma string_to_tensor_raises_on_missing_comma_witness :
  string_to_tensor "[[1.5,2.25][10.0,0.5]]" = raise TypeError.
Proof.
  apply (string_to_tensor_raises_on_missing_comma
           [{| g_d1 := ["1"%char]; g_d2 := ["5"%char]; g_d3 := ["2"%char];
               g_d4 := ["2"%char; "5"%char]; g_comma := false |};
            {| g_d1 := ["1"%char; "0"%char]; g_d2 := ["0"%char];
               g_d3 := ["0"%char]; g_d4 := ["5"%char]; g_comma := false |}]).
  - repeat constructor; discriminate.
  - reflexivity.
Defined.

Lemma string_to_tensor_two_columns s ws x :
  string_to_tensor s = (ws, Ok (Some x)) →
  x ≠ [] ∧ Forall (fun row => length row = 2%nat) x.
Proof.
  unfold string_to_tensor.
  destruct (re_fullmatch pattern s) eqn:Hm; [|done].
  apply pattern_spec in Hm as (gs & Hne & Hgs & ->).
  rewrite py_eval_tensor_text by done.
  destruct (separated gs); [|done]. rewrite bind_ret. intros [= <- <-].
  split; [by destruct gs|]. apply Forall_map, Forall_forall. done.
Qed.

(** Whatever text it is given, [Polygons.to_zarr] can only go on with the
    two axes (x, y): an array [string_to_tensor] returns always has at least
    one row and exactly two columns. *)
Theorem polygons_to_zarr_axes_are_xy (spatial : list string) ws axes :
  polygons_to_zarr_axes spatial = (ws, Ok axes) →
  axes = ["x"; "y"] ∧
  ∃ s x, spatial !! 0%nat = Some s ∧ (string_to_tensor s).2 = Ok (Some x) ∧
         x ≠ [] ∧ Forall (fun row => length row = 2%nat) x.
Proof.
  unfold polygons_to_zarr_axes. destruct spatial as [|s spatial]; [done|].
  rewrite bind_ret.
  destruct (string_to_tensor s) as [w [[x|]|e]] eqn:Hs; [|done..].
  destruct (string_to_tensor_two_columns _ _ _ Hs) as [Hne Hx].
  rewrite bind_Ok. destruct x as [|row x]; [done|].
  apply Forall_cons in Hx as [Hrow Hx]. rewrite bind_ret, Hrow.
  cbn [Nat.eqb orb assert]. rewrite bind_ret. cbn [fst snd ret take].
  intros [= <- <-]. split; [done|]. exists s, (row :: x).
  split; [done|]. split; [by rewrite Hs|]. split; [done|]. by constructor.
Qed.

Lemma polygons_to_zarr_axes_are_xy_witness :
  ∃ ws axes,
    polygons_to_zarr_axes ["[[1.5,2.25],[10.0,0.5]]"] = (ws, Ok axes) ∧
    axes = ["x"; "y"].
Proof.
  eassert (H : polygons_to_zarr_axes ["[[1.5,2.25],[10.0,0.5]]"] = (_, Ok _))
    by (vm_compute; reflexivity).
  eexists _, _. split; [exact H|].
  exact (proj1 (polygons_to_zarr_axes_are_xy _ _ _ H)).
Defined.

(** The part of the round trip that holds: whenever [string_to_tensor]
    returns an array for the text [tensor_to_string] returned for [x], that
    array is close to [x]. *)
Theorem string_to_tensor_of_tensor_to_string_is_close
    (numpy_repr : list (list Q) → string) (x y : list (list Q))
    (s : string) ws ws' :
  tensor_to_string numpy_repr x = (ws, Ok s) →
  string_to_tensor s = (ws', Ok (Some y)) →
  allclose_arrays x y = true.
Proof.
  unfold tensor_to_string, string_to_tensor.
  set (s0 := drop_last _).
  destruct (py_eval s0) as [w [y0|e]] eqn:Hy0; [|done]. rewrite bind_Ok.
  destruct (allclose_arrays x y0) eqn:Hclose; [|done].
  cbn [assert]. rewrite !bind_ret. cbn [fst snd ret]. intros [= _ <-].
  destruct (re_fullmatch pattern s0); [|done].
  rewrite Hy0, bind_Ok. cbn [fst snd ret]. by intros [= _ <-].
Qed.

Lemma string_to_tensor_of_tensor_to_string_is_close_witness :
  allclose_arrays [[3 # 2; 5 # 2]] [[3 # 2; 5 # 2]] = true.
Proof.
  apply (string_to_tensor_of_tensor_to_string_is_close
           (fun _ => "array([[1.5, 2.5]])") [[3 # 2; 5 # 2]] [[3 # 2; 5 # 2]]
           "[[1.5,2.5]]" [] []); vm_compute; reflexivity.
Defined.

(** ** Maintaining the positioning *)

Lemma adjust_transformations_with_positioning D element old t rt ws reg :
  _adjust_transformations D element {[D := Identity]} old t rt true None
  = (ws, Ok reg) →
  ∃ to_prepend, reg = (λ old_t, Sequence [to_prepend; old_t]) <$> old.
Proof.
  unfold _adjust_transformations, get_all_transformations,
    remove_all_transformations.
  change (bool_decide (@None string = None)) with true.
  cbn [assert]. rewrite bind_ret.
  intros H. apply (f_equal snd) in H. cbn [snd] in H. revert H.
  step_bind as o. destruct o as [to_prepend|]; [|by rewrite snd_bind].
  rewrite snd_bind. cbn [ret snd]. rewrite snd_bind, map_size_singleton.
  cbn [Nat.eqb assert ret snd]. rewrite snd_bind, lookup_singleton_eq.
  cbn [is_Identity assert ret snd]. rewrite map_fold_prepend.
  intros [= <-]. by exists to_prepend.
Qed.

(** With [maintain_positioning] every arm of the dispatcher returns an
    element that is registered in exactly the coordinate systems of the
    element it was given. *)
Theorem transform_with_positioning_keeps_coordinate_systems
    (D : string) (_get_scale : Registry → M BaseTransformation)
    (eigenvalue_moduli : matrix → list Q)
    (transformation : option BaseTransformation)
    (to_coordinate_system : option string) :
  (∀ data out,
     (transform_points D data transformation true to_coordinate_system).2
     = Ok out → dom (df_transform out) = dom (df_transform data)) ∧
  (∀ data out,
     (transform_shapes D eigenvalue_moduli data transformation true
        to_coordinate_system).2 = Ok out →
     dom (gdf_transform out) = dom (gdf_transform data)) ∧
  (∀ data out,
     (transform_spatial_image D data transformation true
        to_coordinate_system).2 = Ok out →
     dom (xr_transform out) = dom (xr_transform data)) ∧
  (∀ data out,
     (transform_multiscale D _get_scale data transformation true
        to_coordinate_system).2 = Ok out →
     dom (ms_transform out) = dom (ms_transform data)).
Proof.
  split; [|split; [|split]]; intros data out.
  - unfold transform_points. step_bind as [t cs].
    step_bind as ?. step_bind as ?. step_bind as ?. step_bind as reg.
    intros [= <-]. cbn [df_transform].
    match goal with H : _adjust_transformations _ _ _ _ _ _ _ _ = _ |- _ =>
      apply adjust_transformations_with_positioning in H as [p ->] end.
    by rewrite dom_fmap_L.
  - unfold transform_shapes. step_bind as [t cs].
    step_bind as ?. step_bind as ?. step_bind as ?. step_bind as ?.
    step_bind as reg. intros [= <-]. cbn [gdf_transform].
    match goal with H : _adjust_transformations _ _ _ _ _ _ _ _ = _ |- _ =>
      apply adjust_transformations_with_positioning in H as [p ->] end.
    by rewrite dom_fmap_L.
  - unfold transform_spatial_image. step_bind as [t cs].
    step_bind as [dask rt]. step_bind as reg.
    intros [= <-]. cbn [xr_transform].
    match goal with H : _adjust_transformations _ _ _ _ _ _ _ _ = _ |- _ =>
      apply adjust_transformations_with_positioning in H as [p ->] end.
    by rewrite dom_fmap_L.
  - unfold transform_multiscale. step_bind as [t cs].
    step_bind as ?. step_bind as [dict rt].
    unfold set_transformation, resolve_cs. simpl default. rewrite insert_empty.
    step_bind as reg. intros [= <-]. cbn [ms_transform].
    match goal with H : _adjust_transformations _ _ _ _ _ _ _ _ = _ |- _ =>
      apply adjust_transformations_with_positioning in H as [p ->] end.
    by rewrite dom_fmap_L.
Qed.

Lemma transform_with_positioning_keeps_coordinate_systems_witness :
  ∃ out,
    (transform_points "global"
       {| df_len := 1; df_columns := [("x", [1]); ("y", [2])];
          df_axes := ["x"; "y"];
          df_transform := {["global" := Identity;
                            "aligned" := Translation [10; 20] ["x"; "y"]]} |}
       None true (Some "aligned")).2 = Ok out ∧
    dom (df_transform out) = {["global"; "aligned"]}.
Proof.
  eexists. split; [vm_compute; reflexivity|].
  rewrite (proj1 (transform_with_positioning_keeps_coordinate_systems "global"
                    (fun _ => ret Identity) diagonal_moduli None (Some "aligned"))
             {| df_len := 1; df_columns := [("x", [1]); ("y", [2])];
                df_axes := ["x"; "y"];
                df_transform := {["global" := Identity;
                                  "aligned" := Translation [10; 20] ["x"; "y"]]} |})
    by (vm_compute; reflexivity).
  cbn [df_transform]. rewrite dom_insert_L, dom_singleton_L. done.
Defined.
